(** * EntityEmailHistory.tsx: email-activity viewer and dashboard-customization dialog

    A shallow embedding of the pure logic of

      src/components/shared/EntityEmailHistory.tsx

    - [getBounceExplanation], [cleanBounceReason]  (bounce helpers),
    - [fetchEmails], the realtime handler, [getStatusBadge]  (email viewer),
    - [DEFAULT_WIDGETS], the initialization effect, [toggleWidget],
      [changeSize], [handleDragEnd], [handleSave], [handleReset]  (dialog).

    JavaScript strings are sequences of UTF-16 code units and are modelled
    as [list N]; numbers that the program only uses as integers (indices,
    counters, millisecond time stamps) are modelled as [Z]; [null] and
    [undefined] are [None].  React state is passed explicitly.

    Part I holds the definitions, Part II the lemmas and theorems. *)

From Stdlib Require Import ZArith NArith String Ascii List Permutation Lia Bool.
From stdpp Require Import gmap strings list fin_maps.
Import ListNotations.

(* ===================================================================== *)
(** * Part I.  Definitions                                                *)
(* ===================================================================== *)

(** ** JavaScript strings *)

Abbreviation jsstring := (list N).

Module Js.

(** A string literal of the source, as code units (the literals of this
    file are all ASCII). *)
Definition codes (w : list ascii) : jsstring := List.map N_of_ascii w.

Definition lit (s : string) : jsstring := codes (list_ascii_of_string s).

Definition chr (a : ascii) : N := N_of_ascii a.

(** [s1 === s2] on strings. *)
Definition str_eqb (s1 s2 : jsstring) : bool := bool_decide (s1 = s2).

(** Truthiness of a [string | null] value: [null] and [''] are falsy. *)
Definition truthy (v : option jsstring) : bool :=
  match v with
  | None => false
  | Some [] => false
  | Some (_ :: _) => true
  end.

(** [WhiteSpace] and [LineTerminator] of ECMAScript: the characters
    matched by [\s] and removed by [String.prototype.trim]. *)
Definition is_line_terminator (c : N) : bool :=
  ((c =? 10) || (c =? 13) || (c =? 8232) || (c =? 8233))%N.

Definition is_space (c : N) : bool :=
  (((9 <=? c) && (c <=? 13)) || (c =? 32) || (c =? 160) || (c =? 5760)
   || ((8192 <=? c) && (c <=? 8202)) || (c =? 8232) || (c =? 8233)
   || (c =? 8239) || (c =? 8287) || (c =? 12288) || (c =? 65279))%N.

(** [\d] *)
Definition is_digit (c : N) : bool := ((48 <=? c) && (c <=? 57))%N.

(** [.] without the [s] flag: anything but a line terminator. *)
Definition is_dot (c : N) : bool := negb (is_line_terminator c).

(** [Canonicalize] of a regular expression with the [i] flag and without
    the [u] flag: a code unit is compared by its upper-case form, except
    that a code unit >= 128 never folds to one < 128.  The patterns of
    this file are ASCII only, so the upper-casing of code units >= 128 is
    irrelevant to every comparison made here and is left as the identity:
    such a code unit never equals the canonical form of a pattern
    character. *)
Definition canonicalize (c : N) : N :=
  (if (97 <=? c) && (c <=? 122) then c - 32 else c)%N.

Definition is_char (a : ascii) (c : N) : bool := (c =? chr a)%N.
Definition is_not_char (a : ascii) (c : N) : bool := negb (c =? chr a)%N.
Definition is_char_i (a : ascii) (c : N) : bool :=
  (canonicalize c =? canonicalize (chr a))%N.

(** [String.prototype.trim] *)
Fixpoint trimStart (s : jsstring) : jsstring :=
  match s with
  | [] => []
  | c :: s' => if is_space c then trimStart s' else s
  end.

Definition trimEnd (s : jsstring) : jsstring := rev (trimStart (rev s)).

Definition trim (s : jsstring) : jsstring := trimEnd (trimStart s).

End Js.

(** ** Regular expressions

    The regular expressions of the source are sequences of: the assertion
    [^], a single character class, and a greedy [*] over a single
    character class ([+] and [{3}] unfold to these).  The matcher is the
    backtracking matcher of ECMAScript restricted to these nodes: the
    first alternative tried by a [*] is the longest one. *)

Module Regex.

Inductive node : Type :=
| Bol                      (* ^ *)
| One (p : N -> bool)      (* a character class *)
| Star (p : N -> bool).    (* class*, greedy *)

Definition regex := list node.

Definition plus (p : N -> bool) : regex := [One p; Star p].

(** A literal under the [i] flag. *)
Definition ones_i (w : list ascii) : regex :=
  List.map (fun a => One (Js.is_char_i a)) w.

Definition literal_i (s : string) : regex := ones_i (list_ascii_of_string s).

(** [greedy p k bol s]: consume as many [p]-characters as possible, then
    continue with [k]; on failure give one character back.  [bol] tells
    whether the current position is the start of the input. *)
Fixpoint greedy (p : N -> bool) (k : bool -> jsstring -> option nat)
  (bol : bool) (s : jsstring) : option nat :=
  match s with
  | c :: s' =>
      if p c then
        match greedy p k false s' with
        | Some n => Some (S n)
        | None => k bol s
        end
      else k bol s
  | [] => k bol s
  end.

(** [match_here r bol s]: match [r] at the front of [s]; the result is the
    number of code units consumed. *)
Fixpoint match_here (r : regex) : bool -> jsstring -> option nat :=
  match r with
  | [] => fun _ _ => Some 0%nat
  | Bol :: r' => fun bol s => if bol then match_here r' bol s else None
  | One p :: r' => fun _ s =>
      match s with
      | c :: s' =>
          if p c then
            match match_here r' false s' with
            | Some n => Some (S n)
            | None => None
            end
          else None
      | [] => None
      end
  | Star p :: r' => greedy p (match_here r')
  end.

(** The first position at which the expression matches, if any. *)
Fixpoint search (r : regex) (bol : bool) (s : jsstring) : bool :=
  match match_here r bol s with
  | Some _ => true
  | None =>
      match s with
      | [] => false
      | _ :: s' => search r false s'
      end
  end.

(** [RegExp.prototype.test] and the truthiness of [String.prototype.match]
    for an expression without the [g] flag. *)
Definition test (r : regex) (s : jsstring) : bool := search r true s.

(** [String.prototype.replace] with a [g] expression and a replacement
    string without [$]: [skip] counts the code units of the current match
    that are still to be dropped.  After an empty match the scan advances
    by one code unit, which is copied. *)
Fixpoint replace_from (r : regex) (rep : jsstring) (bol : bool) (skip : nat)
  (s : jsstring) : jsstring :=
  match s with
  | [] =>
      match skip, match_here r bol [] with
      | O, Some _ => rep
      | _, _ => []
      end
  | c :: s' =>
      match skip with
      | S k => replace_from r rep false k s'
      | O =>
          match match_here r bol s with
          | Some (S n) => rep ++ replace_from r rep false n s'
          | Some O => rep ++ c :: replace_from r rep false O s'
          | None => c :: replace_from r rep false O s'
          end
      end
  end.

Definition replace (r : regex) (rep : jsstring) (s : jsstring) : jsstring :=
  replace_from r rep true 0 s.

(** Element [0] of [String.prototype.split] with a regular expression
    separator: the text before the first separator, the whole string when
    there is none.  An empty match at index 0 does not split.  For the
    empty string the array is [['']] unless the separator matches the
    empty string, in which case the array is empty and element [0] is
    [undefined]. *)
Fixpoint split_scan (r : regex) (s : jsstring) : jsstring :=
  match s with
  | [] => []
  | c :: s' =>
      match match_here r false s with
      | Some _ => []
      | None => c :: split_scan r s'
      end
  end.

Definition split_head (r : regex) (s : jsstring) : option jsstring :=
  match s with
  | [] =>
      match match_here r true [] with
      | Some _ => None
      | None => Some []
      end
  | c :: s' =>
      match match_here r true s with
      | Some (S _) => Some []
      | _ => Some (c :: split_scan r s')
      end
  end.

End Regex.

(** Notions used to state what the matcher computes. *)

Module RegexSpec.

(** The length of the longest prefix of [s] inside the class [p]. *)
Fixpoint run (p : N -> bool) (s : jsstring) : nat :=
  match s with
  | c :: s' => if p c then S (run p s') else 0
  | [] => 0
  end.

(** Whether a match was found. *)
Definition ok (o : option nat) : bool :=
  match o with
  | Some _ => true
  | None => false
  end.

(** Whether the position is still the start of the input after the
    characters [w] have been read. *)
Definition after (bol : bool) (w : list ascii) : bool :=
  match w with
  | [] => bol
  | _ :: _ => false
  end.

(** [k] succeeds at [s], or after some prefix of [s] inside the class
    [p]. *)
Fixpoint reach (p : N -> bool) (k : jsstring -> option nat) (s : jsstring)
  : bool :=
  ok (k s)
  || match s with
     | c :: s' => p c && reach p k s'
     | [] => false
     end.

End RegexSpec.

(** ** Icons of lucide-react used by the two components *)

Module Lucide.

Inductive Icon : Type :=
| MailX | AlertTriangle | XCircle
| FileText | Users | Briefcase | Clock | Zap | Calendar | Bell | Activity
| TrendingUp | BarChart3 | Target | LineChart | DollarSign | Percent
| ArrowUpRight | Mail | PhoneCall | MessageSquare | CheckCircle | ListTodo
| Trophy | Globe | MapPin | Filter | Building2 | Star | PieChart | Gauge.

End Lucide.

(** ** Bounce helpers *)

Module Bounce.

Inductive Severity : Type := error | warning.

Record Explanation : Type := {
  title : jsstring;
  subtitle : jsstring;
  description : jsstring;
  Icon : Lucide.Icon;
  severity : Severity
}.

(** [getBounceExplanation], lines 80-106. *)
Definition getBounceExplanation (bounceType bounceReason : option jsstring)
  : Explanation :=
  if bool_decide (bounceType = Some (Js.lit "hard")) then
    {| title := Js.lit "Delivery Failed";
       subtitle := Js.lit "Email address doesn't exist";
       description := Js.lit "This email could not be delivered because the recipient's email address was not found or is invalid. Please verify the email address and try again with a correct one.";
       Icon := Lucide.MailX;
       severity := error |}
  else if bool_decide (bounceType = Some (Js.lit "soft")) then
    {| title := Js.lit "Delivery Delayed";
       subtitle := Js.lit "Temporary delivery issue";
       description := Js.lit "This email couldn't be delivered due to a temporary issue (e.g., full mailbox, server busy). The system may retry automatically.";
       Icon := Lucide.AlertTriangle;
       severity := warning |}
  else
    {| title := Js.lit "Delivery Failed";
       subtitle := Js.lit "Unable to deliver email";
       description := Js.lit "This email could not be delivered to the recipient. The email address may be invalid or the recipient's server rejected the message.";
       Icon := Lucide.XCircle;
       severity := error |}.

Record Cleaned : Type := {
  summary : jsstring;
  technical : option jsstring
}.

(** [/<[^>]*>/g] *)
Definition re_tag : Regex.regex :=
  [Regex.One (Js.is_char "<"); Regex.Star (Js.is_not_char ">");
   Regex.One (Js.is_char ">")].

(** [/\s+/g] *)
Definition re_spaces : Regex.regex := Regex.plus Js.is_space.

(** The array [patterns], lines 116-126; all carry the [i] flag. *)
Definition patterns : list Regex.regex :=
  [ Regex.literal_i "The email account that you tried to reach does not exist";
    Regex.literal_i "address rejected";
    Regex.literal_i "user unknown";
    Regex.literal_i "mailbox not found";
    Regex.literal_i "recipient rejected";
    Regex.literal_i "no such user";
    Regex.literal_i "invalid recipient";
    Regex.literal_i "delivery" ++ [Regex.Star Js.is_dot]
      ++ Regex.literal_i "failed";
    Regex.literal_i "undeliverable" ].

(** [/^\d{3}\s+\d+\.\d+\.\d+/] *)
Definition re_smtp : Regex.regex :=
  [Regex.Bol; Regex.One Js.is_digit; Regex.One Js.is_digit;
   Regex.One Js.is_digit]
  ++ Regex.plus Js.is_space
  ++ Regex.plus Js.is_digit ++ [Regex.One (Js.is_char ".")]
  ++ Regex.plus Js.is_digit ++ [Regex.One (Js.is_char ".")]
  ++ Regex.plus Js.is_digit.

(** [/error code/i] *)
Definition re_error_code : Regex.regex := Regex.literal_i "error code".

(** [/[.!?]/] *)
Definition is_sentence_end (c : N) : bool :=
  Js.is_char "." c || Js.is_char "!" c || Js.is_char "?" c.

Definition re_sentence_end : Regex.regex := [Regex.One is_sentence_end].

(** Line 113: strip tags, collapse white space, trim. *)
Definition clean (reason : jsstring) : jsstring :=
  Js.trim
    (Regex.replace re_spaces (Js.lit " ")
       (Regex.replace re_tag (Js.lit " ") reason)).

(** The loop of lines 129-137: the first pattern that matches returns. *)
Fixpoint match_patterns (ps : list Regex.regex) (cleaned : jsstring)
  : option Cleaned :=
  match ps with
  | [] => None
  | pattern :: ps' =>
      if Regex.test pattern cleaned then
        Some {| summary :=
                  Js.lit "The recipient's email address was not found or is invalid.";
                technical := Some cleaned |}
      else match_patterns ps' cleaned
  end.

(** [cleanBounceReason], lines 109-157. *)
Definition cleanBounceReason (reason : option jsstring) : Cleaned :=
  if negb (Js.truthy reason) then {| summary := []; technical := None |}
  else
    let cleaned := clean (default [] reason) in
    match match_patterns patterns cleaned with
    | Some r => r
    | None =>
        if Regex.test re_smtp cleaned || Regex.test re_error_code cleaned then
          {| summary := Js.lit "The email server rejected the message.";
             technical := Some cleaned |}
        else
          let firstSentence := Regex.split_head re_sentence_end cleaned in
          if Js.truthy firstSentence
             && (10 <? length (default [] firstSentence))%nat
             && (length (default [] firstSentence) <? 200)%nat
          then
            {| summary := default [] firstSentence ++ Js.lit ".";
               technical :=
                 if negb (Js.str_eqb cleaned
                            (default [] firstSentence ++ Js.lit "."))
                 then Some cleaned else None |}
          else {| summary := cleaned; technical := None |}
    end.

End Bounce.

(** ** The email-activity viewer *)

Module Email.

(** [interface EmailHistoryItem], lines 41-63.  The optional entity ids
    are [None] both when absent and when [null]. *)
Record EmailHistoryItem : Type := {
  id : jsstring;
  subject : jsstring;
  recipient_email : jsstring;
  recipient_name : option jsstring;
  sender_email : jsstring;
  body : option jsstring;
  status : jsstring;
  sent_at : jsstring;
  opened_at : option jsstring;
  open_count : option Z;
  unique_opens : option Z;
  bounce_type : option jsstring;
  bounce_reason : option jsstring;
  bounced_at : option jsstring;
  is_valid_open : option bool;
  reply_count : option Z;
  replied_at : option jsstring;
  last_reply_at : option jsstring;
  lead_id : option jsstring;
  contact_id : option jsstring;
  account_id : option jsstring
}.

(** [entityType: 'contact' | 'lead' | 'account'] *)
Inductive EntityType : Type := contact | lead | account.

(** The part of the component state that the modelled code touches. *)
Record State : Type := {
  emails : list EmailHistoryItem;
  loading : bool;
  selectedEmail : option EmailHistoryItem
}.

Definition setEmails (f : list EmailHistoryItem -> list EmailHistoryItem)
  (st : State) : State :=
  {| emails := f (emails st); loading := loading st;
     selectedEmail := selectedEmail st |}.

Definition setLoading (b : bool) (st : State) : State :=
  {| emails := emails st; loading := b; selectedEmail := selectedEmail st |}.

Definition setSelectedEmail
  (f : option EmailHistoryItem -> option EmailHistoryItem) (st : State)
  : State :=
  {| emails := emails st; loading := loading st;
     selectedEmail := f (selectedEmail st) |}.

(** *** A state monad with exceptions, for [async] code with [try] *)

(** An error object of the backend client, or any thrown object: always
    truthy. *)
Record Error : Type := { message : jsstring }.

Definition M (A : Type) : Type := State -> State * (Error + A).

Definition ret {A} (a : A) : M A := fun st => (st, inr a).

Definition bind {A B} (m : M A) (f : A -> M B) : M B :=
  fun st =>
    match m st with
    | (st', inr a) => f a st'
    | (st', inl e) => (st', inl e)
    end.

Definition throw {A} (e : Error) : M A := fun st => (st, inl e).

Definition modify (f : State -> State) : M unit := fun st => (f st, inr tt).

(** [try { body } catch (e) { handler e } finally { final }] *)
Definition try_catch_finally (body : M unit) (handler : Error -> M unit)
  (final : M unit) : M unit :=
  fun st =>
    let after :=
      match body st with
      | (st', inr tt) => (st', inr tt)
      | (st', inl e) => handler e st'
      end in
    match final (fst after) with
    | (st'', inr tt) => (st'', snd after)
    | (st'', inl e) => (st'', inl e)
    end.

Notation "'let!' x ':=' m 'in' k" := (bind m (fun x => k))
  (at level 10, x name, m at level 100, k at level 200).
Notation "'do!' m 'in' k" := (bind m (fun _ => k))
  (at level 10, m at level 100, k at level 200).

(** The query built by [fetchEmails]: the table, the selected columns,
    the ordering, and the column and value of its [eq] filter. *)
Record Query : Type := {
  table : jsstring;
  columns : jsstring;
  order_column : jsstring;
  ascending : bool;
  eq_column : jsstring;
  eq_value : jsstring
}.

(** The column list of line 172. *)
Definition history_columns : jsstring :=
  Js.lit "id, subject, recipient_email, recipient_name, sender_email, body, status, sent_at, opened_at, open_count, unique_opens, bounce_type, bounce_reason, bounced_at, is_valid_open, reply_count, replied_at, last_reply_at, lead_id, contact_id, account_id".

(** What awaiting the query yields: the object [{ data, error }], or a
    rejection. *)
Inductive QueryOutcome : Type :=
| Resolved (data : option (list EmailHistoryItem)) (error : option Error)
| Rejected (e : Error).

Section Viewer.

(** The backend behind [supabase], the props of the component, and the
    time value of [new Date(s).getTime()] ([None] is [NaN]). *)
Variable supabase : Query -> QueryOutcome.
Variable entityType : EntityType.
Variable entityId : jsstring.
Variable getTime : jsstring -> option Z.

Definition await (q : Query) : M (option (list EmailHistoryItem) * option Error) :=
  match supabase q with
  | Resolved data error => ret (data, error)
  | Rejected e => throw e
  end.

Definition entity_column (t : EntityType) : jsstring :=
  match t with
  | contact => Js.lit "contact_id"
  | lead => Js.lit "lead_id"
  | account => Js.lit "account_id"
  end.

(** [fetchEmails], lines 167-192.  [console.error] leaves the state
    alone. *)
Definition fetchEmails : M unit :=
  do! modify (setLoading true) in
  try_catch_finally
    (let query :=
       {| table := Js.lit "email_history";
          columns := history_columns;
          order_column := Js.lit "sent_at";
          ascending := false;
          eq_column := entity_column entityType;
          eq_value := entityId |} in
     let! r := await query in
     match snd r with
     | Some error => throw error
     | None => modify (setEmails (fun _ => default [] (fst r)))
     end)
    (fun error => ret tt)
    (modify (setLoading false)).

(** The [postgres_changes] payloads. *)
Inductive Payload : Type :=
| INSERT (new : EmailHistoryItem)
| UPDATE (new : EmailHistoryItem)
| DELETE (old_id : jsstring).

(** Lines 217-220. *)
Definition belongsToEntity (newEmail : EmailHistoryItem) : bool :=
  match entityType with
  | lead => bool_decide (lead_id newEmail = Some entityId)
  | contact => bool_decide (contact_id newEmail = Some entityId)
  | account => bool_decide (account_id newEmail = Some entityId)
  end.

(** The realtime callback, lines 213-235.  An [UPDATE] payload carries the
    whole row, so [{ ...e, ...updatedEmail }] is [updatedEmail]. *)
Definition on_postgres_changes (payload : Payload) (st : State) : State :=
  match payload with
  | INSERT newEmail =>
      if belongsToEntity newEmail
      then setEmails (fun prev => newEmail :: prev) st
      else st
  | UPDATE updatedEmail =>
      let st1 :=
        setEmails
          (List.map (fun e =>
             if Js.str_eqb (id e) (id updatedEmail) then updatedEmail else e))
          st in
      if bool_decide (id <$> selectedEmail st = Some (id updatedEmail))
      then setSelectedEmail
             (fun prev => match prev with
                          | Some _ => Some updatedEmail
                          | None => None
                          end) st1
      else st1
  | DELETE _ => st
  end.

(** The subscription effect, lines 201-242: no channel, hence no callback,
    when [entityId] is empty. *)
Definition subscription : option (Payload -> State -> State) :=
  match entityId with
  | [] => None
  | _ :: _ => Some on_postgres_changes
  end.

(** The badges of [getStatusBadge], by their text. *)
Inductive Badge : Type :=
| Verifying
| BounceBadge (title : jsstring)
| Replied (count : option Z)
| Suspicious
| Opened
| Delivered
| Sent.

(** [Date.now() - sentAt.getTime() < 60000]; a comparison with [NaN] is
    false. *)
Definition isRecentlySent (now : Z) (email : EmailHistoryItem) : bool :=
  match getTime (sent_at email) with
  | Some t => (now - t <? 60000)%Z
  | None => false
  end.

(** Truthiness of [reply_count && reply_count > n]. *)
Definition count_above (n : Z) (reply_count : option Z) : bool :=
  match reply_count with
  | Some c => negb (c =? 0)%Z && (n <? c)%Z
  | None => false
  end.

(** [getStatusBadge], lines 274-351, at the time [now] of [Date.now()]. *)
Definition getStatusBadge (now : Z) (email : EmailHistoryItem) : Badge :=
  if Js.str_eqb (status email) (Js.lit "sent")
     && isRecentlySent now email
     && negb (Js.truthy (bounce_type email))
  then Verifying
  else if Js.str_eqb (status email) (Js.lit "bounced")
          || Js.truthy (bounce_type email)
  then BounceBadge
         (Bounce.title (Bounce.getBounceExplanation (bounce_type email) None))
  else if Js.str_eqb (status email) (Js.lit "replied")
          || count_above 0 (reply_count email)
  then Replied (if count_above 1 (reply_count email)
                then reply_count email else None)
  else if Js.str_eqb (status email) (Js.lit "opened")
  then (if bool_decide (is_valid_open email = Some false)
        then Suspicious else Opened)
  else if Js.str_eqb (status email) (Js.lit "delivered")
  then Delivered
  else Sent.

End Viewer.

End Email.

(** ** JavaScript arrays *)

Module Array.

(** [Array.prototype.splice(start, deleteCount, ...items)]: a negative
    [start] counts from the end, both arguments are clamped to the array.
    The result is the removed elements and the array afterwards. *)
Definition splice {A} (arr : list A) (start deleteCount : Z) (items : list A)
  : list A * list A :=
  let len := Z.of_nat (length arr) in
  let actualStart :=
    if (start <? 0)%Z then Z.max (len + start) 0 else Z.min start len in
  let actualDeleteCount :=
    Z.min (Z.max deleteCount 0) (len - actualStart) in
  let a := Z.to_nat actualStart in
  let d := Z.to_nat actualDeleteCount in
  (firstn d (skipn a arr), firstn a arr ++ items ++ skipn (a + d) arr).

(** [arr.push(x)] *)
Definition push {A} (arr : list A) (x : A) : list A := arr ++ [x].

(** [arr.includes(k)] on strings *)
Definition includes (arr : list jsstring) (k : jsstring) : bool :=
  bool_decide (k ∈ arr).

End Array.

(** ** The dashboard-customization dialog *)

Module Dashboard.

(** [WidgetKey] is a union of string literals: a string at run time. *)
Definition WidgetKey := jsstring.

(** [type WidgetSize], line 707 *)
Inductive WidgetSize : Type := xs | small | medium | large | xl.

(** [interface DashboardWidget], lines 709-715; the icon node is
    identified by its lucide component. *)
Record DashboardWidget : Type := {
  key : jsstring;
  label : jsstring;
  icon : Lucide.Icon;
  visible : bool;
  size : WidgetSize
}.

Definition widget (k l : string) (i : Lucide.Icon) (v : bool) (s : WidgetSize)
  : DashboardWidget :=
  {| key := Js.lit k; label := Js.lit l; icon := i; visible := v; size := s |}.

(** [DEFAULT_WIDGETS], lines 721-759 *)
Definition DEFAULT_WIDGETS : list DashboardWidget :=
  [ widget "leads" "My Leads" Lucide.FileText true small;
    widget "contacts" "My Contacts" Lucide.Users true small;
    widget "deals" "My Deals" Lucide.Briefcase true small;
    widget "actionItems" "Action Items" Lucide.Clock true small;
    widget "quickActions" "Quick Actions" Lucide.Zap true medium;
    widget "upcomingMeetings" "Upcoming Meetings" Lucide.Calendar true medium;
    widget "taskReminders" "Task Reminders" Lucide.Bell true medium;
    widget "recentActivities" "Recent Activities" Lucide.Activity true medium;
    widget "performance" "My Performance" Lucide.TrendingUp true large;
    widget "leadStatus" "Lead Status Overview" Lucide.BarChart3 true large;
    widget "salesTarget" "Sales Target" Lucide.Target false medium;
    widget "revenueChart" "Revenue Chart" Lucide.LineChart false large;
    widget "pipelineValue" "Pipeline Value" Lucide.DollarSign false small;
    widget "conversionRate" "Conversion Rate" Lucide.Percent false small;
    widget "dealForecast" "Deal Forecast" Lucide.ArrowUpRight false large;
    widget "emailStats" "Email Statistics" Lucide.Mail false medium;
    widget "callLog" "Call Log" Lucide.PhoneCall false medium;
    widget "teamActivity" "Team Activity" Lucide.MessageSquare false medium;
    widget "completedTasks" "Completed Tasks" Lucide.CheckCircle false small;
    widget "overdueItems" "Overdue Items" Lucide.AlertTriangle false small;
    widget "taskProgress" "Task Progress" Lucide.ListTodo false medium;
    widget "topDeals" "Top Deals" Lucide.Trophy false medium;
    widget "regionStats" "Region Statistics" Lucide.Globe false large;
    widget "geoDistribution" "Geo Distribution" Lucide.MapPin false large;
    widget "leadSources" "Lead Sources" Lucide.Filter false medium;
    widget "accountHealth" "Account Health" Lucide.Building2 false medium;
    widget "customerRetention" "Customer Retention" Lucide.Star false small;
    widget "winLossRatio" "Win/Loss Ratio" Lucide.PieChart false small;
    widget "salesVelocity" "Sales Velocity" Lucide.Gauge false medium;
    widget "growthTrend" "Growth Trend" Lucide.TrendingUp false large ].

(** [{ ...w, visible: v }] and [{ ...w, size: s }] *)
Definition with_visible (w : DashboardWidget) (v : bool) : DashboardWidget :=
  {| key := key w; label := label w; icon := icon w; visible := v;
     size := size w |}.

Definition with_size (w : DashboardWidget) (s : WidgetSize) : DashboardWidget :=
  {| key := key w; label := label w; icon := icon w; visible := visible w;
     size := s |}.

(** [arr.find(w => w.key === k)] *)
Definition find_key (arr : list DashboardWidget) (k : jsstring)
  : option DashboardWidget :=
  List.find (fun w => Js.str_eqb (key w) k) arr.

(** The props read by the initialization effect; [widgetSizes] is an
    object used as a map from keys to sizes. *)
Record Props : Type := {
  visibleWidgets : list jsstring;
  widgetOrder : list jsstring;
  widgetSizes : gmap jsstring WidgetSize
}.

(** The object pushed by both loops of the effect:
    [{ ...w, visible: visibleWidgets.includes(k), size: widgetSizes[k] || w.size }] *)
Definition configured (props : Props) (w : DashboardWidget) (k : jsstring)
  : DashboardWidget :=
  {| key := key w; label := label w; icon := icon w;
     visible := Array.includes (visibleWidgets props) k;
     size := default (size w) (widgetSizes props !! k) |}.

(** The first loop, lines 787-796. *)
Definition add_saved (props : Props) (orderedWidgets : list DashboardWidget)
  (k : jsstring) : list DashboardWidget :=
  match find_key DEFAULT_WIDGETS k with
  | Some defaultWidget =>
      Array.push orderedWidgets (configured props defaultWidget k)
  | None => orderedWidgets
  end.

(** The second loop, lines 799-807. *)
Definition add_missing (props : Props) (orderedWidgets : list DashboardWidget)
  (w : DashboardWidget) : list DashboardWidget :=
  match find_key orderedWidgets (key w) with
  | Some _ => orderedWidgets
  | None => Array.push orderedWidgets (configured props w (key w))
  end.

(** The initialization effect, lines 782-810: the next value of
    [widgets]. *)
Definition initialize (props : Props) : list DashboardWidget :=
  let orderedWidgets := fold_left (add_saved props) (widgetOrder props) [] in
  fold_left (add_missing props) DEFAULT_WIDGETS orderedWidgets.

(** [toggleWidget], lines 812-816 *)
Definition toggleWidget (k : jsstring) (prev : list DashboardWidget)
  : list DashboardWidget :=
  List.map (fun w => if Js.str_eqb (key w) k
                     then with_visible w (negb (visible w)) else w) prev.

(** [changeSize], lines 818-822 *)
Definition changeSize (k : jsstring) (s : WidgetSize)
  (prev : list DashboardWidget) : list DashboardWidget :=
  List.map (fun w => if Js.str_eqb (key w) k then with_size w s else w) prev.

(** [DropResult] of the drag-and-drop library, as far as it is read. *)
Record DraggableLocation : Type := { index : Z }.

Record DropResult : Type := {
  source : DraggableLocation;
  destination : option DraggableLocation
}.

(** [handleDragEnd], lines 824-832: the next value of [widgets].  An
    element is [None] where the array holds [undefined], which is what
    [const [reorderedItem] = ...] yields when nothing was removed. *)
Definition handleDragEnd (widgets : list DashboardWidget) (result : DropResult)
  : list (option DashboardWidget) :=
  match destination result with
  | None => List.map Some widgets
  | Some dest =>
      let items := List.map Some widgets in
      let '(removed, items1) :=
        Array.splice items (index (source result)) 1 [] in
      let reorderedItem := hd None removed in
      snd (Array.splice items1 (index dest) 0 [reorderedItem])
  end.

(** [handleSave], lines 834-842: the three arguments handed to [onSave].
    The object [sizes] is written at widget keys only and is modelled as
    a finite map. *)
Definition handleSave (widgets : list DashboardWidget)
  : list jsstring * list jsstring * gmap jsstring WidgetSize :=
  let visible_keys := List.map key (List.filter visible widgets) in
  let order := List.map key widgets in
  let sizes :=
    fold_left (fun sizes w => <[key w := size w]> sizes) widgets ∅ in
  (visible_keys, order, sizes).

(** [handleReset], lines 844-846 *)
Definition handleReset : list DashboardWidget :=
  List.map (fun w => with_visible w true) DEFAULT_WIDGETS.

(** The user operations and effects that write [widgets]. *)
Inductive Action : Type :=
| Init (props : Props)
| Toggle (k : jsstring)
| Resize (k : jsstring) (s : WidgetSize)
| Drag (result : DropResult)
| ResetDefaults.

Definition apply (a : Action) (widgets : list DashboardWidget)
  : list (option DashboardWidget) :=
  match a with
  | Init props => List.map Some (initialize props)
  | Toggle k => List.map Some (toggleWidget k widgets)
  | Resize k s => List.map Some (changeSize k s widgets)
  | Drag result => handleDragEnd widgets result
  | ResetDefaults => List.map Some handleReset
  end.

End Dashboard.

(** ** Specification-level definitions

    The definitions below follow the words of the specification, not the
    code; Part II compares them with the code. *)

Module BounceSpec.

(** Replace every tag [<...>] by one space.  [held] is the text read since
    an unclosed [<], most recent first: it is dropped when the closing [>]
    arrives and kept when the input ends without one. *)
Fixpoint strip_tags_from (held : option jsstring) (s : jsstring) : jsstring :=
  match s with
  | [] => match held with
          | Some h => rev h
          | None => []
          end
  | c :: s' =>
      match held with
      | None =>
          if Js.is_char "<" c then strip_tags_from (Some [c]) s'
          else c :: strip_tags_from None s'
      | Some h =>
          if Js.is_char ">" c then Js.chr " " :: strip_tags_from None s'
          else strip_tags_from (Some (c :: h)) s'
      end
  end.

Definition strip_tags (s : jsstring) : jsstring := strip_tags_from None s.

(** Replace every run of white space by one space. *)
Fixpoint collapse_from (in_run : bool) (s : jsstring) : jsstring :=
  match s with
  | [] => []
  | c :: s' =>
      if Js.is_space c then
        if in_run then collapse_from true s'
        else Js.chr " " :: collapse_from true s'
      else c :: collapse_from false s'
  end.

Definition collapse_whitespace (s : jsstring) : jsstring :=
  collapse_from false s.

(** The cleaned text. *)
Definition cleaned_text (reason : jsstring) : jsstring :=
  Js.trim (collapse_whitespace (strip_tags reason)).

(** Two code units are the same letter when they are equal or are the
    lower-case and upper-case form of one ASCII letter. *)
Definition same_letter (a c : N) : bool :=
  ((c =? a)
   || ((97 <=? a) && (a <=? 122) && (c =? a - 32))
   || ((65 <=? a) && (a <=? 90) && (c =? a + 32)))%N.

Fixpoint starts_with_ci (w s : jsstring) : bool :=
  match w, s with
  | [], _ => true
  | a :: w', c :: s' => same_letter a c && starts_with_ci w' s'
  | _ :: _, [] => false
  end.

(** [s] contains the phrase [w], ignoring case. *)
Fixpoint contains_ci (w s : jsstring) : bool :=
  starts_with_ci w s
  || match s with
     | [] => false
     | _ :: s' => contains_ci w s'
     end.

(** [s] contains [w1] and, somewhere after it, [w2], ignoring case. *)
Fixpoint contains_then_ci (w1 w2 s : jsstring) : bool :=
  (starts_with_ci w1 s && contains_ci w2 (skipn (length w1) s))
  || match s with
     | [] => false
     | _ :: s' => contains_then_ci w1 w2 s'
     end.

(** Inside a tag: anything but [>]; and the expression that closes it. *)
Definition not_gt : N -> bool := Js.is_not_char ">".

Definition gt : Regex.regex := [Regex.One (Js.is_char ">")].

(** A code unit of a text whose only white space is the space. *)
Definition plain (c : N) : Prop := Js.is_space c = true -> c = Js.chr " ".

(** The result for a known failure. *)
Definition invalid_address (cleaned : jsstring) : Bounce.Cleaned :=
  {| Bounce.summary :=
       Js.lit "The recipient's email address was not found or is invalid.";
     Bounce.technical := Some cleaned |}.

(** The nine known failure patterns. *)
Inductive failure_pattern : Type :=
| Phrase (w : string)
| PhraseThen (w1 w2 : string).

Definition known_failures : list failure_pattern :=
  [ Phrase "The email account that you tried to reach does not exist";
    Phrase "address rejected";
    Phrase "user unknown";
    Phrase "mailbox not found";
    Phrase "recipient rejected";
    Phrase "no such user";
    Phrase "invalid recipient";
    PhraseThen "delivery" "failed";
    Phrase "undeliverable" ].

Definition matches_failure (cleaned : jsstring) (f : failure_pattern) : bool :=
  match f with
  | Phrase w => contains_ci (Js.lit w) cleaned
  | PhraseThen w1 w2 => contains_then_ci (Js.lit w1) (Js.lit w2) cleaned
  end.

Fixpoint skip_while (p : N -> bool) (s : jsstring) : jsstring :=
  match s with
  | [] => []
  | c :: s' => if p c then skip_while p s' else s
  end.

(** One or more digits: what follows them. *)
Definition after_digits (s : jsstring) : option jsstring :=
  match s with
  | c :: s' => if Js.is_digit c then Some (skip_while Js.is_digit s') else None
  | [] => None
  end.

(** [s] begins with a three-digit code, white space and a dotted status
    code [digits.digits.digits]. *)
Definition begins_with_smtp_code (s : jsstring) : bool :=
  match s with
  | d1 :: d2 :: d3 :: sp :: s1 =>
      Js.is_digit d1 && Js.is_digit d2 && Js.is_digit d3 && Js.is_space sp
      && match after_digits (skip_while Js.is_space s1) with
         | Some (dot1 :: s2) =>
             Js.is_char "." dot1
             && match after_digits s2 with
                | Some (dot2 :: c :: _) => Js.is_char "." dot2 && Js.is_digit c
                | _ => false
                end
         | _ => false
         end
  | _ => false
  end.

(** The text before the first ['.'], ['!'] or ['?']. *)
Fixpoint first_sentence (s : jsstring) : jsstring :=
  match s with
  | [] => []
  | c :: s' =>
      if Bounce.is_sentence_end c then [] else c :: first_sentence s'
  end.

(** The function of the input that the specification describes. *)
Definition cleanBounceReason_spec (reason : option jsstring) : Bounce.Cleaned :=
  match reason with
  | None => {| Bounce.summary := []; Bounce.technical := None |}
  | Some text =>
      let cleaned := cleaned_text text in
      if existsb (matches_failure cleaned) known_failures then
        invalid_address cleaned
      else if begins_with_smtp_code cleaned
              || contains_ci (Js.lit "error code") cleaned then
        {| Bounce.summary := Js.lit "The email server rejected the message.";
           Bounce.technical := Some cleaned |}
      else
        let sentence := first_sentence cleaned in
        if negb (Nat.eqb (length sentence) 0)
           && (10 <? length sentence)%nat && (length sentence <? 200)%nat
        then
          {| Bounce.summary := sentence ++ Js.lit ".";
             Bounce.technical :=
               if bool_decide (cleaned = sentence ++ Js.lit ".")
               then None else Some cleaned |}
        else {| Bounce.summary := cleaned; Bounce.technical := None |}
  end.

End BounceSpec.

Module EmailSpec.

(** The entity-id field of a row that corresponds to an entity type. *)
Definition entity_field (t : Email.EntityType) (row : Email.EmailHistoryItem)
  : option jsstring :=
  match t with
  | Email.lead => Email.lead_id row
  | Email.contact => Email.contact_id row
  | Email.account => Email.account_id row
  end.

(** The query that [fetchEmails] sends. *)
Definition history_query (t : Email.EntityType) (entityId : jsstring)
  : Email.Query :=
  {| Email.table := Js.lit "email_history";
     Email.columns := Email.history_columns;
     Email.order_column := Js.lit "sent_at";
     Email.ascending := false;
     Email.eq_column := Email.entity_column t;
     Email.eq_value := entityId |}.

Definition is_null {A} (v : option A) : bool :=
  match v with
  | None => true
  | Some _ => false
  end.

(** The precedence of badges in the words of the specification, which
    tests [bounce_type] against [null]. *)
Definition badge_as_specified (getTime : jsstring -> option Z) (now : Z)
  (email : Email.EmailHistoryItem) : Email.Badge :=
  if bool_decide (Email.status email = Js.lit "sent")
     && Email.isRecentlySent getTime now email
     && is_null (Email.bounce_type email)
  then Email.Verifying
  else if bool_decide (Email.status email = Js.lit "bounced")
          || negb (is_null (Email.bounce_type email))
  then Email.BounceBadge
         (Bounce.title
            (Bounce.getBounceExplanation (Email.bounce_type email) None))
  else if bool_decide (Email.status email = Js.lit "replied")
          || Email.count_above 0 (Email.reply_count email)
  then Email.Replied (if Email.count_above 1 (Email.reply_count email)
                      then Email.reply_count email else None)
  else if bool_decide (Email.status email = Js.lit "opened")
  then (if bool_decide (Email.is_valid_open email = Some false)
        then Email.Suspicious else Email.Opened)
  else if bool_decide (Email.status email = Js.lit "delivered")
  then Email.Delivered
  else Email.Sent.

Section Conditions.

Variable getTime : jsstring -> option Z.
Variable now : Z.
Variable email : Email.EmailHistoryItem.

(** [bounce_type] is [null] or the empty string. *)
Definition no_bounce_type : Prop :=
  Email.bounce_type email = None \/ Email.bounce_type email = Some [].

Definition sent_recently : Prop :=
  exists t, getTime (Email.sent_at email) = Some t /\ (now - t < 60000)%Z.

Definition verifying : Prop :=
  Email.status email = Js.lit "sent" /\ sent_recently /\ no_bounce_type.

Definition bounced : Prop :=
  Email.status email = Js.lit "bounced" \/ ~ no_bounce_type.

Definition replied : Prop :=
  Email.status email = Js.lit "replied"
  \/ exists n, Email.reply_count email = Some n /\ (0 < n)%Z.

Definition opened : Prop := Email.status email = Js.lit "opened".

Definition delivered : Prop := Email.status email = Js.lit "delivered".

End Conditions.

End EmailSpec.

Module DashboardSpec.

(** The list without its element at index [i]. *)
Definition remove_at {A} (i : nat) (l : list A) : list A :=
  firstn i l ++ skipn (S i) l.

(** The list with [x] inserted so that it sits at index [i]. *)
Definition insert_at {A} (i : nat) (x : A) (l : list A) : list A :=
  firstn i l ++ x :: skipn i l.

(** Remove the element at [src] and re-insert it at [dst]. *)
Definition move {A} (src dst : nat) (l : list A) : list A :=
  match nth_error l src with
  | Some x => insert_at dst x (remove_at src l)
  | None => l
  end.

(** What makes a widget a widget of the catalog: everything but the two
    settings that the dialog edits. *)
Definition identity (w : Dashboard.DashboardWidget)
  : jsstring * jsstring * Lucide.Icon :=
  (Dashboard.key w, Dashboard.label w, Dashboard.icon w).

Definition catalog_keys : list jsstring :=
  List.map Dashboard.key Dashboard.DEFAULT_WIDGETS.

Definition in_catalog (k : jsstring) : bool := bool_decide (k ∈ catalog_keys).

(** The list consists of exactly the widgets of the catalog, each once,
    in some order. *)
Definition exactly_catalog (widgets : list Dashboard.DashboardWidget) : Prop :=
  Permutation (List.map identity widgets)
    (List.map identity Dashboard.DEFAULT_WIDGETS).

(** No catalog key is listed twice in [widgetOrder]. *)
Definition order_without_repeats (props : Dashboard.Props) : Prop :=
  List.NoDup (List.filter in_catalog (Dashboard.widgetOrder props)).

(** The drag picked up one of the listed widgets: the library reports the
    [index] prop of a rendered item as the source index. *)
Definition picks_listed (result : Dashboard.DropResult)
  (widgets : list Dashboard.DashboardWidget) : Prop :=
  (0 <= Dashboard.index (Dashboard.source result)
   < Z.of_nat (length widgets))%Z.

Definition enabled (ok : Dashboard.Props -> Prop) (a : Dashboard.Action)
  (widgets : list Dashboard.DashboardWidget) : Prop :=
  match a with
  | Dashboard.Init props => ok props
  | Dashboard.Drag result => picks_listed result widgets
  | _ => True
  end.

(** The values [widgets] takes once the initialization effect has run,
    for props that satisfy [ok]. *)
Inductive reachable (ok : Dashboard.Props -> Prop)
  : list Dashboard.DashboardWidget -> Prop :=
| reach_initialize props :
    ok props -> reachable ok (Dashboard.initialize props)
| reach_step widgets a widgets' :
    reachable ok widgets ->
    enabled ok a widgets ->
    Dashboard.apply a widgets = List.map Some widgets' ->
    reachable ok widgets'.

(** How [toggleWidget k] relates a widget to its image: only the visible
    flag may change, and only for the key [k]. *)
Definition toggled (k : jsstring) (w w' : Dashboard.DashboardWidget) : Prop :=
  Dashboard.key w' = Dashboard.key w
  /\ Dashboard.label w' = Dashboard.label w
  /\ Dashboard.icon w' = Dashboard.icon w
  /\ Dashboard.size w' = Dashboard.size w
  /\ Dashboard.visible w'
     = (if Js.str_eqb (Dashboard.key w) k
        then negb (Dashboard.visible w) else Dashboard.visible w)
  /\ (Dashboard.key w <> k -> w' = w).

(** The catalog widgets in the order chosen by the initialization effect:
    those named in [order], as named, then the ones [order] omits. *)
Definition selection (order : list jsstring) : list Dashboard.DashboardWidget :=
  omap (Dashboard.find_key Dashboard.DEFAULT_WIDGETS) order
  ++ List.filter (fun w => negb (Array.includes order (Dashboard.key w)))
       Dashboard.DEFAULT_WIDGETS.

(** A catalog widget with the saved settings of its key. *)
Definition with_settings (props : Dashboard.Props)
  (w : Dashboard.DashboardWidget) : Dashboard.DashboardWidget :=
  Dashboard.configured props w (Dashboard.key w).

(** The last widget of the list that has the key [k]. *)
Fixpoint last_with_key (k : jsstring) (widgets : list Dashboard.DashboardWidget)
  : option Dashboard.DashboardWidget :=
  match widgets with
  | [] => None
  | w :: widgets' =>
      match last_with_key k widgets' with
      | Some w' => Some w'
      | None => if Js.str_eqb (Dashboard.key w) k then Some w else None
      end
  end.

(** Widgets that share a key are the same widget. *)
Definition key_determines (widgets : list Dashboard.DashboardWidget) : Prop :=
  forall w1 w2, In w1 widgets -> In w2 widgets ->
    Dashboard.key w1 = Dashboard.key w2 -> w1 = w2.

End DashboardSpec.

(** ** Sample inputs *)

Module Samples.

(** A saved order that names the widget [leads] twice. *)
Definition repeated_order : Dashboard.Props :=
  {| Dashboard.visibleWidgets := [];
     Dashboard.widgetOrder := [Js.lit "leads"; Js.lit "leads"];
     Dashboard.widgetSizes := ∅ |}.

(** A saved order with an unknown key and a resized widget. *)
Definition saved_order : Dashboard.Props :=
  {| Dashboard.visibleWidgets := [Js.lit "deals"];
     Dashboard.widgetOrder := [Js.lit "deals"; Js.lit "retired"; Js.lit "leads"];
     Dashboard.widgetSizes := <[Js.lit "deals" := Dashboard.xl]> ∅ |}.

Definition leads : Dashboard.DashboardWidget :=
  Dashboard.widget "leads" "My Leads" Lucide.FileText true Dashboard.small.

Definition contacts : Dashboard.DashboardWidget :=
  Dashboard.widget "contacts" "My Contacts" Lucide.Users false Dashboard.small.

Definition deals : Dashboard.DashboardWidget :=
  Dashboard.widget "deals" "My Deals" Lucide.Briefcase true Dashboard.large.

Definition three : list Dashboard.DashboardWidget := [leads; contacts; deals].

(** The first item dropped on the last position. *)
Definition first_to_last : Dashboard.DropResult :=
  {| Dashboard.source := {| Dashboard.index := 0 |};
     Dashboard.destination := Some {| Dashboard.index := 2 |} |}.

(** A source index that names no item. *)
Definition from_nowhere : Dashboard.DropResult :=
  {| Dashboard.source := {| Dashboard.index := 5 |};
     Dashboard.destination := Some {| Dashboard.index := 0 |} |}.

(** An email with the given status, bounce type and entity ids. *)
Definition email (status : string) (bounce_type : option jsstring)
  (lead_id : option jsstring) : Email.EmailHistoryItem :=
  {| Email.id := Js.lit "e-1";
     Email.subject := Js.lit "Hello";
     Email.recipient_email := Js.lit "to@example.com";
     Email.recipient_name := None;
     Email.sender_email := Js.lit "from@example.com";
     Email.body := None;
     Email.status := Js.lit status;
     Email.sent_at := Js.lit "2024-01-01T00:00:00Z";
     Email.opened_at := None;
     Email.open_count := None;
     Email.unique_opens := None;
     Email.bounce_type := bounce_type;
     Email.bounce_reason := None;
     Email.bounced_at := None;
     Email.is_valid_open := None;
     Email.reply_count := None;
     Email.replied_at := None;
     Email.last_reply_at := None;
     Email.lead_id := lead_id;
     Email.contact_id := None;
     Email.account_id := None |}.

(** Every date string denotes the time value 0. *)
Definition epoch : jsstring -> option Z := fun _ => Some 0%Z.

Definition initial_state : Email.State :=
  {| Email.emails := []; Email.loading := true; Email.selectedEmail := None |}.

End Samples.

(** ** The rest of the email viewer *)

Module EmailView.

(** [x || 0] on a [number | null] value. *)
Definition or_zero (v : option Z) : Z := default 0%Z v.

(** [a || b] on strings, [a] being [string | null]. *)
Definition or_else (a : option jsstring) (b : jsstring) : jsstring :=
  if Js.truthy a then default [] a else b.

(** What [getOpenCountDisplay] shows: the bounce title; "0 opens";
    "[total] (suspicious)"; "[unique] unique" or "[total] opens", the last
    two with a tooltip that gives both numbers. *)
Inductive OpenCount : Type :=
| BounceText (title : jsstring)
| ZeroOpens
| SuspiciousOpens (total : Z)
| UniqueOpens (unique total : Z)
| TotalOpens (total unique : Z).

(** [getOpenCountDisplay], lines 353-410. *)
Definition getOpenCountDisplay (email : Email.EmailHistoryItem) : OpenCount :=
  if Js.str_eqb (Email.status email) (Js.lit "bounced")
     || Js.truthy (Email.bounce_type email)
  then BounceText
         (Bounce.title
            (Bounce.getBounceExplanation (Email.bounce_type email) None))
  else
    let uniqueOpens := or_zero (Email.unique_opens email) in
    let totalOpens := or_zero (Email.open_count email) in
    if (totalOpens =? 0)%Z then ZeroOpens
    else if bool_decide (Email.is_valid_open email = Some false)
    then SuspiciousOpens totalOpens
    else if (0 <? uniqueOpens)%Z then UniqueOpens uniqueOpens totalOpens
    else TotalOpens totalOpens uniqueOpens.

(** What React makes of the value of a JSX expression [{a && b && <X/>}]:
    [null] and [false] render nothing, a number renders as text. *)
Inductive Rendered (A : Type) : Type :=
| Nothing
| Number (n : Z)
| Element (a : A).

Arguments Nothing {A}.
Arguments Number {A} n.
Arguments Element {A} a.

Record ReplyIndicator : Type := {
  shown_count : Z;
  noun : jsstring
}.

(** The reply count indicator of a card, lines 457-462:
    [{email.reply_count && email.reply_count > 0 && (...)}]. *)
Definition reply_indicator (email : Email.EmailHistoryItem)
  : Rendered ReplyIndicator :=
  match Email.reply_count email with
  | None => Nothing
  | Some c =>
      if (c =? 0)%Z then Number c
      else if (0 <? c)%Z then
        Element {| shown_count := c;
                   noun := if (c =? 1)%Z then Js.lit "reply"
                           else Js.lit "replies" |}
      else Nothing
  end.

(** Whether a card gets the class [border-destructive/30], line 439. *)
Definition highlighted (email : Email.EmailHistoryItem) : bool :=
  Js.str_eqb (Email.status email) (Js.lit "bounced")
  || Js.truthy (Email.bounce_type email).

(** [`${entityType}`] *)
Definition entity_word (t : Email.EntityType) : jsstring :=
  match t with
  | Email.contact => Js.lit "contact"
  | Email.lead => Js.lit "lead"
  | Email.account => Js.lit "account"
  end.

(** The three outcomes of the render, lines 412-431: three skeletons, the
    empty message, or one card per email. *)
Inductive Screen : Type :=
| Skeletons
| NoEmails (text : jsstring)
| History (rows : list Email.EmailHistoryItem).

Definition screen (entityType : Email.EntityType) (st : Email.State) : Screen :=
  if Email.loading st then Skeletons
  else if (length (Email.emails st) =? 0)%nat then
    NoEmails (Js.lit "No emails sent to this " ++ entity_word entityType
              ++ Js.lit " yet")
  else History (Email.emails st).

(** The channel name of the subscription, line 205. *)
Definition channel_name (entityType : Email.EntityType) (entityId : jsstring)
  : jsstring :=
  Js.lit "email-updates-" ++ entity_word entityType ++ Js.lit "-" ++ entityId.

(** The effect of lines 194-198: fetch unless [entityId] is empty. *)
Definition fetch_effect (supabase : Email.Query -> Email.QueryOutcome)
  (entityType : Email.EntityType) (entityId : jsstring) : Email.M unit :=
  if Js.truthy (Some entityId)
  then Email.fetchEmails supabase entityType entityId
  else Email.ret tt.

(** [interface EmailReply], lines 65-72. *)
Record EmailReply : Type := {
  reply_id : jsstring;
  from_email : jsstring;
  from_name : option jsstring;
  received_at : jsstring;
  body_preview : option jsstring;
  reply_subject : option jsstring
}.

Record ReplyState : Type := {
  replies : list EmailReply;
  loadingReplies : bool
}.

(** What the replies query yields.  A rejected promise never reaches the
    [then] callback. *)
Inductive RepliesOutcome : Type :=
| RepliesResolved (data : option (list EmailReply)) (error : option Email.Error)
| RepliesRejected.

(** Whether the replies of an email are asked for and shown:
    [(reply_count || 0) > 0]. *)
Definition has_replies (email : Email.EmailHistoryItem) : bool :=
  (0 <? or_zero (Email.reply_count email))%Z.

(** The effect of lines 245-265 together with the settling of its query:
    [email_replies] answers the query for an [email_history_id]. *)
Definition replies_effect (email_replies : jsstring -> RepliesOutcome)
  (selectedEmail : option Email.EmailHistoryItem) (st : ReplyState)
  : ReplyState :=
  match selectedEmail with
  | Some email =>
      if has_replies email then
        match email_replies (Email.id email) with
        | RepliesResolved data (Some _) =>
            {| replies := []; loadingReplies := false |}
        | RepliesResolved data None =>
            {| replies := default [] data; loadingReplies := false |}
        | RepliesRejected =>
            {| replies := replies st; loadingReplies := true |}
        end
      else {| replies := []; loadingReplies := loadingReplies st |}
  | None => {| replies := []; loadingReplies := loadingReplies st |}
  end.

(** The body of the replies section, lines 627-652. *)
Inductive RepliesBody : Type :=
| ReplySkeletons
| ReplyCards (cards : list EmailReply)
| NotAvailableYet.

Definition replies_body (st : ReplyState) : RepliesBody :=
  if loadingReplies st then ReplySkeletons
  else if (0 <? length (replies st))%nat then ReplyCards (replies st)
  else NotAvailableYet.

(** The bounce panel of the dialog, lines 529-592: the explanation, and
    the technical details when the collapsible is rendered. *)
Record BouncePanel : Type := {
  info : Bounce.Explanation;
  technical_details : option jsstring
}.

(** The open statistics, lines 595-618: the unique opens, and the total
    when its card is rendered. *)
Record OpenStats : Type := {
  unique_card : Z;
  total_card : option Z
}.

(** The parts of the dialog that depend on the selected email, lines
    482-679.  Dates are given as stored; their formatting is left to the
    date library. *)
Record Details : Type := {
  recipient : jsstring;
  failed_date : option jsstring;
  first_opened_date : option jsstring;
  bounce_panel : option BouncePanel;
  open_stats : option OpenStats;
  replies_heading : option (option Z);
  suspicious_warning : bool;
  message_body : option jsstring
}.

(** [v && ...] for a [string | null] value [v]: the string when truthy. *)
Definition when_truthy (v : option jsstring) : option jsstring :=
  if Js.truthy v then v else None.

Definition details (email : Email.EmailHistoryItem) : Details :=
  {| recipient :=
       or_else (Email.recipient_name email) (Email.recipient_email email);
     failed_date := when_truthy (Email.bounced_at email);
     first_opened_date :=
       if Js.truthy (Email.opened_at email)
          && negb (Js.truthy (Email.bounce_type email))
       then Email.opened_at email else None;
     bounce_panel :=
       if Js.truthy (Email.bounce_type email) then
         let bounceInfo :=
           Bounce.getBounceExplanation (Email.bounce_type email)
             (Email.bounce_reason email) in
         let cleanedReason :=
           Bounce.cleanBounceReason (Email.bounce_reason email) in
         Some {| info := bounceInfo;
                 technical_details :=
                   when_truthy (Bounce.technical cleanedReason) |}
       else None;
     open_stats :=
       if negb (Js.truthy (Email.bounce_type email)) then
         Some {| unique_card := or_zero (Email.unique_opens email);
                 total_card :=
                   if (or_zero (Email.unique_opens email)
                       <? or_zero (Email.open_count email))%Z
                   then Some (or_zero (Email.open_count email)) else None |}
       else None;
     replies_heading :=
       if has_replies email then Some (Email.reply_count email) else None;
     suspicious_warning :=
       bool_decide (Email.is_valid_open email = Some false)
       && negb (Js.truthy (Email.bounce_type email));
     message_body := when_truthy (Email.body email) |}.

End EmailView.

(** ** The rest of the dashboard dialog *)

Module DashboardView.

(** [getSizeLabel], lines 848-856 *)
Definition getSizeLabel (size : Dashboard.WidgetSize) : jsstring :=
  match size with
  | Dashboard.xs => Js.lit "XS"
  | Dashboard.small => Js.lit "S"
  | Dashboard.medium => Js.lit "M"
  | Dashboard.large => Js.lit "L"
  | Dashboard.xl => Js.lit "XL"
  end.

(** [getSizeColor], lines 858-866 *)
Definition getSizeColor (size : Dashboard.WidgetSize) : jsstring :=
  match size with
  | Dashboard.xs =>
      Js.lit "bg-purple-100 dark:bg-purple-900/30 border-purple-300"
  | Dashboard.small =>
      Js.lit "bg-blue-100 dark:bg-blue-900/30 border-blue-300"
  | Dashboard.medium =>
      Js.lit "bg-amber-100 dark:bg-amber-900/30 border-amber-300"
  | Dashboard.large =>
      Js.lit "bg-green-100 dark:bg-green-900/30 border-green-300"
  | Dashboard.xl =>
      Js.lit "bg-rose-100 dark:bg-rose-900/30 border-rose-300"
  end.

(** The props of a dialog that is given back what [handleSave] handed to
    [onSave(visibleWidgets, widgetOrder, widgetSizes)]. *)
Definition saved_props
  (saved : list jsstring * list jsstring * gmap jsstring Dashboard.WidgetSize)
  : Dashboard.Props :=
  {| Dashboard.visibleWidgets := fst (fst saved);
     Dashboard.widgetOrder := snd (fst saved);
     Dashboard.widgetSizes := snd saved |}.

(** How [changeSize k s] relates a widget to its image: only the size may
    change, and only for the key [k]. *)
Definition resized (k : jsstring) (s : Dashboard.WidgetSize)
  (w w' : Dashboard.DashboardWidget) : Prop :=
  Dashboard.key w' = Dashboard.key w
  /\ Dashboard.label w' = Dashboard.label w
  /\ Dashboard.icon w' = Dashboard.icon w
  /\ Dashboard.visible w' = Dashboard.visible w
  /\ Dashboard.size w'
     = (if Js.str_eqb (Dashboard.key w) k then s else Dashboard.size w)
  /\ (Dashboard.key w <> k -> w' = w).

(** The size that the catalog gives to a key. *)
Definition catalog_size (k : jsstring) : option Dashboard.WidgetSize :=
  Dashboard.size <$> Dashboard.find_key Dashboard.DEFAULT_WIDGETS k.

End DashboardView.

(** ** The shape of a cleaned text *)

Module CleanedShape.

(** No run of white space but single spaces: [in_run] tells whether the
    preceding code unit was a space. *)
Fixpoint single_spaced (in_run : bool) (s : jsstring) : Prop :=
  match s with
  | [] => True
  | c :: s' =>
      if Js.is_space c
      then in_run = false /\ c = Js.chr " " /\ single_spaced true s'
      else single_spaced false s'
  end.

Definition no_gt (s : jsstring) : Prop :=
  Forall (fun c => Js.is_char ">" c = false) s.

(** No [<] is followed, anywhere later, by a [>]: nothing is a tag. *)
Fixpoint tag_free (s : jsstring) : Prop :=
  match s with
  | [] => True
  | c :: s' => (Js.is_char "<" c = true -> no_gt s') /\ tag_free s'
  end.

(** The first and the last code unit are not white space. *)
Definition trimmed (s : jsstring) : Prop :=
  (forall c, head s = Some c -> Js.is_space c = false)
  /\ (forall c, last s = Some c -> Js.is_space c = false).

End CleanedShape.

(* ===================================================================== *)
(** * Part II.  Lemmas and theorems                                       *)
(* ===================================================================== *)

(** ** Strings *)

Lemma str_eqb_true s1 s2 : Js.str_eqb s1 s2 = true <-> s1 = s2.
Proof. unfold Js.str_eqb. apply bool_decide_eq_true. Qed.

Lemma str_eqb_false s1 s2 : Js.str_eqb s1 s2 = false <-> s1 <> s2.
Proof. unfold Js.str_eqb. apply bool_decide_eq_false. Qed.

Lemma truthy_false v : Js.truthy v = false <-> v = None \/ v = Some [].
Proof.
  destruct v as [[|c s]|]; cbn; split; intros H; try done; auto.
  by destruct H.
Qed.

Lemma truthy_length s : Js.truthy (Some s) = negb (Nat.eqb (length s) 0).
Proof. by destruct s. Qed.

(** ** The matcher and the bounce helpers *)

Section BounceFacts.

Import Regex RegexSpec Bounce BounceSpec.

(** *** What the tests of the specification mean *)

Lemma starts_with_ci_spec w s :
  starts_with_ci w s = true
  <-> exists m rest,
        s = m ++ rest /\ Forall2 (fun a c => same_letter a c = true) w m.
Proof.
  revert s. induction w as [|a w IH]; intros s.
  - split; [intros _|done]. exists [], s. split; [done|constructor].
  - destruct s as [|c s]; cbn [starts_with_ci].
    + split; [done|]. intros (m & rest & Hs & Hm).
      inversion Hm; subst. discriminate Hs.
    + rewrite andb_true_iff, IH. split.
      * intros (Hc & m & rest & -> & Hm). exists (c :: m), rest.
        split; [done|by constructor].
      * intros (m & rest & Hs & Hm). inversion Hm as [|? c' ? m' Hc Hm']; subst.
        injection Hs as <- ->. split; [done|]. by exists m', rest.
Qed.

Lemma contains_ci_spec w s :
  contains_ci w s = true
  <-> exists before m rest,
        s = before ++ m ++ rest
        /\ Forall2 (fun a c => same_letter a c = true) w m.
Proof.
  induction s as [|c s IH]; cbn [contains_ci]; rewrite orb_true_iff, starts_with_ci_spec.
  - split.
    + intros [(m & rest & Hs & Hm)|]; [|done]. by exists [], m, rest.
    + intros (before & m & rest & Hs & Hm). left.
      destruct before; [|discriminate Hs]. by exists m, rest.
  - rewrite IH. split.
    + intros [(m & rest & Hs & Hm)|(before & m & rest & Hs & Hm)].
      * by exists [], m, rest.
      * exists (c :: before), m, rest. by rewrite Hs.
    + intros (before & m & rest & Hs & Hm). destruct before as [|c' before].
      * left. by exists m, rest.
      * right. injection Hs as <- ->. by exists before, m, rest.
Qed.

Lemma first_sentence_spec s :
  exists rest,
    s = first_sentence s ++ rest
    /\ Forall (fun c => is_sentence_end c = false) (first_sentence s)
    /\ match rest with
       | [] => True
       | c :: _ => is_sentence_end c = true
       end.
Proof.
  induction s as [|c s (rest & Hs & Hf & Hr)]; cbn [first_sentence].
  - exists []. by repeat split.
  - destruct (is_sentence_end c) eqn:E.
    + exists (c :: s). by repeat split.
    + exists rest. split; [cbn; by rewrite <- Hs|]. split; [by constructor|done].
Qed.

Lemma same_letter_cases a c :
  same_letter a c = true
  <-> c = a
      \/ ((97 <= a <= 122)%N /\ c = (a - 32)%N)
      \/ ((65 <= a <= 90)%N /\ c = (a + 32)%N).
Proof.
  unfold same_letter.
  rewrite !orb_true_iff, !andb_true_iff, !N.eqb_eq, !N.leb_le. tauto.
Qed.
(** *** Literals *)

Lemma ok_fmap (f : nat -> nat) o : ok (f <$> o) = ok o.
Proof. by destruct o. Qed.

Lemma skipn_run p s : skipn (run p s) s = skip_while p s.
Proof.
  induction s as [|c s IH]; [done|]. cbn [run skip_while].
  destruct (p c); [exact IH|done].
Qed.

Lemma run_le p s : (run p s <= length s)%nat.
Proof.
  induction s as [|c s IH]; cbn [run length]; [lia|]. destruct (p c); lia.
Qed.

Lemma canonicalize_same_letter a c :
  (Js.canonicalize c =? Js.canonicalize a)%N = same_letter a c.
Proof.
  unfold Js.canonicalize, same_letter.
  destruct (N.leb_spec 97 c), (N.leb_spec c 122), (N.leb_spec 97 a),
    (N.leb_spec a 122), (N.leb_spec 65 a), (N.leb_spec a 90);
    cbn [andb orb];
    repeat match goal with
           | |- context [N.eqb ?x ?y] => destruct (N.eqb_spec x y)
           end; cbn [andb orb]; try reflexivity; lia.
Qed.

Lemma is_char_i_same_letter a c :
  Js.is_char_i a c = same_letter (Js.chr a) c.
Proof. apply canonicalize_same_letter. Qed.

(** A literal matches where the text starts with it, whatever the case. *)
Lemma match_here_ones_i w r bol s :
  match_here (ones_i w ++ r) bol s
  = if starts_with_ci (Js.codes w) s
    then (fun n => length w + n)%nat
           <$> match_here r (after bol w) (skipn (length w) s)
    else None.
Proof.
  revert bol s. induction w as [|a w IH]; intros bol s.
  - cbn. rewrite skipn_O. by destruct (match_here r bol s).
  - cbn [ones_i List.map app match_here Js.codes starts_with_ci].
    destruct s as [|c s]; [done|].
    rewrite is_char_i_same_letter. fold (Js.chr a).
    destruct (same_letter (Js.chr a) c); [|done].
    fold (ones_i w). fold (Js.codes w). rewrite IH. cbn [andb].
    destruct (starts_with_ci (Js.codes w) s); [|done].
    cbn [length after]. rewrite skipn_cons.
    replace (after false w) with false by (by destruct w).
    by destruct (match_here r false (skipn (length w) s)).
Qed.

Lemma match_here_literal_i w bol s :
  ok (match_here (literal_i w) bol s) = starts_with_ci (Js.lit w) s.
Proof.
  unfold literal_i, Js.lit.
  rewrite <- (app_nil_r (ones_i _)), match_here_ones_i.
  by destruct (starts_with_ci _ s).
Qed.

Lemma search_ok r bol s :
  search r bol s
  = ok (match_here r bol s)
    || match s with [] => false | _ :: s' => search r false s' end.
Proof. destruct s; cbn [search]; by destruct (match_here r bol _). Qed.

(** [/w/i.test(s)] says whether [s] contains [w], ignoring case. *)
Lemma test_literal_i w s :
  test (literal_i w) s = contains_ci (Js.lit w) s.
Proof.
  unfold test. generalize true. induction s as [|c s IH]; intros b.
  - rewrite search_ok, match_here_literal_i. by cbn.
  - rewrite search_ok, match_here_literal_i. cbn [contains_ci].
    by rewrite IH.
Qed.

(** A greedy [*] followed by [k] succeeds exactly when [k] succeeds after
    some prefix inside the class: giving characters back finds it. *)
Lemma greedy_ok p (k : bool -> jsstring -> option nat) bol s :
  (forall b b' t, k b t = k b' t) ->
  ok (greedy p k bol s) = reach p (k false) s.
Proof.
  intros Hk. revert bol. induction s as [|c s IH]; intros bol.
  - cbn. rewrite (Hk bol false). by destruct (k false []).
  - cbn [greedy reach]. rewrite (Hk bol false). destruct (p c); cbn [andb].
    + specialize (IH false). destruct (greedy p k false s); cbn in IH |- *.
      * rewrite <- IH. by rewrite orb_true_r.
      * rewrite <- IH. by rewrite orb_false_r.
    + by rewrite orb_false_r.
Qed.

Lemma match_here_ones_i_bol w b b' s :
  match_here (ones_i w) b s = match_here (ones_i w) b' s.
Proof.
  rewrite <- (app_nil_r (ones_i w)), !match_here_ones_i.
  destruct (starts_with_ci _ _); [|done]. by cbn.
Qed.

Lemma reach_all_dots w s :
  Forall (fun c => Js.is_dot c = true) s ->
  reach Js.is_dot (match_here (ones_i w) false) s = contains_ci (Js.codes w) s.
Proof.
  induction 1 as [|c s Hc Hs IH]; cbn [reach contains_ci].
  - rewrite <- (app_nil_r (ones_i w)), match_here_ones_i.
    by destruct (starts_with_ci _ _).
  - rewrite Hc, IH. cbn [andb]. f_equal.
    rewrite <- (app_nil_r (ones_i w)), match_here_ones_i.
    by destruct (starts_with_ci _ _).
Qed.

Lemma Forall_skipn {A} (P : A -> Prop) n l : Forall P l -> Forall P (skipn n l).
Proof.
  intros H. revert n.
  induction H as [|x l Hx Hl IH]; intros [|n]; cbn [skipn]; auto.
Qed.

(** On a text without line terminators, [/w1.*w2/i.test(s)] says whether
    [s] contains [w1] and later [w2]. *)
Lemma test_literal_then w1 w2 s :
  w1 <> EmptyString ->
  Forall (fun c => Js.is_dot c = true) s ->
  test (literal_i w1 ++ [Star Js.is_dot] ++ literal_i w2) s
  = contains_then_ci (Js.lit w1) (Js.lit w2) s.
Proof.
  intros Hw1 Hs. unfold test. generalize true.
  unfold literal_i, Js.lit.
  assert (list_ascii_of_string w1 <> []) as Hl by (by destruct w1).
  revert Hl. generalize (list_ascii_of_string w1) as l1.
  generalize (list_ascii_of_string w2) as l2. intros l2 l1 Hl.
  assert (forall b t, Forall (fun c => Js.is_dot c = true) t ->
    ok (match_here (ones_i l1 ++ [Star Js.is_dot] ++ ones_i l2) b t)
    = starts_with_ci (Js.codes l1) t
      && contains_ci (Js.codes l2) (skipn (length (Js.codes l1)) t)) as Hm.
  { intros b t Ht. rewrite match_here_ones_i.
    destruct (starts_with_ci (Js.codes l1) t); [|done].
    rewrite ok_fmap. cbn [app match_here andb].
    rewrite greedy_ok by apply match_here_ones_i_bol.
    unfold Js.codes at 2. rewrite length_map.
    by rewrite reach_all_dots by by apply Forall_skipn. }
  induction Hs as [|c s Hc Hs IH]; intros b.
  - rewrite search_ok, Hm by constructor. by cbn.
  - rewrite search_ok, Hm by by constructor.
    cbn [contains_then_ci]. by rewrite IH.
Qed.

(** *** Collapsing white space *)

Lemma greedy_end p bol s :
  greedy p (match_here []) bol s = Some (run p s).
Proof.
  revert bol. induction s as [|c s IH]; intros bol; [done|].
  cbn [greedy run]. destruct (p c); [|done]. by rewrite IH.
Qed.

Lemma match_here_spaces bol c s :
  match_here re_spaces bol (c :: s)
  = if Js.is_space c then Some (S (run Js.is_space s)) else None.
Proof.
  unfold re_spaces, plus. cbn [match_here].
  destruct (Js.is_space c); [|done]. by rewrite greedy_end.
Qed.

Lemma replace_from_spaces s :
  (forall bol,
      replace_from re_spaces (Js.lit " ") bol 0 s
      = collapse_from false s)
  /\ replace_from re_spaces (Js.lit " ") false (run Js.is_space s) s
     = collapse_from true s.
Proof.
  induction s as [|c s [IH1 IH2]].
  - split; [intros bol|]; reflexivity.
  - split; [intros bol|].
    + cbn [replace_from collapse_from]. rewrite match_here_spaces.
      destruct (Js.is_space c).
      * rewrite IH2. reflexivity.
      * by rewrite IH1.
    + cbn [run collapse_from]. destruct (Js.is_space c) eqn:E.
      * cbn [replace_from]. exact IH2.
      * cbn [replace_from]. rewrite match_here_spaces, E. by rewrite IH1.
Qed.

(** [s.replace(/\s+/g, ' ')] collapses every run of white space. *)
Lemma replace_spaces s :
  replace re_spaces (Js.lit " ") s = collapse_whitespace s.
Proof. apply replace_from_spaces. Qed.

(** *** Stripping tags *)

Lemma is_not_char_negb a c : Js.is_not_char a c = negb (Js.is_char a c).
Proof. done. Qed.

(** [[^>]*>] ends at the first [>], and fails when there is none. *)
Lemma greedy_until_gt bol s :
  greedy not_gt (match_here gt) bol s
  = match skip_while not_gt s with
    | [] => None
    | _ :: _ => Some (S (run not_gt s))
    end.
Proof.
  revert bol. induction s as [|c s IH]; intros bol; [done|].
  cbn [greedy run skip_while].
  destruct (not_gt c) eqn:E.
  - rewrite IH. destruct (skip_while not_gt s); [|done].
    unfold gt. cbn [match_here]. unfold not_gt in E.
    rewrite is_not_char_negb in E. apply negb_true_iff in E. by rewrite E.
  - unfold gt. cbn [match_here]. unfold not_gt in E.
    rewrite is_not_char_negb in E. apply negb_false_iff in E. by rewrite E.
Qed.

Lemma match_here_tag bol c s :
  match_here re_tag bol (c :: s)
  = if Js.is_char "<" c
    then match skip_while not_gt s with
         | [] => None
         | _ :: _ => Some (S (S (run not_gt s)))
         end
    else None.
Proof.
  unfold re_tag. cbn [match_here]. destruct (Js.is_char "<" c); [|done].
  fold not_gt. fold gt. rewrite greedy_until_gt.
  by destruct (skip_while not_gt s).
Qed.

Lemma replace_from_skip r rep n s :
  (n <= length s)%nat ->
  replace_from r rep false n s = replace_from r rep false 0 (skipn n s).
Proof.
  revert n. induction s as [|c s IH]; intros [|n] Hn; cbn [length] in Hn;
    try done; try lia.
  cbn [replace_from]. rewrite skipn_cons. apply IH. lia.
Qed.

Lemma strip_tags_held h s :
  strip_tags_from (Some h) s
  = match skip_while not_gt s with
    | [] => rev h ++ s
    | _ :: rest => Js.chr " " :: strip_tags_from None rest
    end.
Proof.
  revert h. induction s as [|c s IH]; intros h.
  - cbn. by rewrite app_nil_r.
  - cbn [strip_tags_from skip_while].
    unfold not_gt at 1. rewrite is_not_char_negb.
    destruct (Js.is_char ">" c); cbn [negb]; [done|].
    rewrite IH. destruct (skip_while not_gt s); [|done].
    cbn [rev]. by rewrite <- app_assoc.
Qed.

Lemma replace_from_no_gt bol s :
  skip_while not_gt s = [] ->
  replace_from re_tag (Js.lit " ") bol 0 s = s.
Proof.
  revert bol. induction s as [|c s IH]; intros bol H; [done|].
  cbn [skip_while] in H. destruct (not_gt c) eqn:E; [|done].
  cbn [replace_from]. rewrite match_here_tag. rewrite H.
  destruct (Js.is_char "<" c); by rewrite IH.
Qed.

Lemma skip_while_length p s :
  (length (skip_while p s) <= length s)%nat.
Proof.
  induction s as [|c s IH]; cbn [skip_while length]; [lia|].
  destruct (p c); cbn [length]; lia.
Qed.

Lemma replace_from_tags n s bol :
  (length s < n)%nat ->
  replace_from re_tag (Js.lit " ") bol 0 s = strip_tags_from None s.
Proof.
  revert s bol. induction n as [|n IH]; intros s bol Hn; [lia|].
  destruct s as [|c s]; [done|]. cbn [length] in Hn.
  cbn [replace_from strip_tags_from]. rewrite match_here_tag.
  destruct (Js.is_char "<" c).
  - rewrite strip_tags_held.
    pose proof (skipn_run not_gt s) as Hskip.
    pose proof (skip_while_length not_gt s) as Hlen.
    pose proof (run_le not_gt s) as Hrun.
    destruct (skip_while not_gt s) as [|g rest] eqn:E.
    + cbn [rev app]. f_equal. by apply replace_from_no_gt.
    + cbn [length] in Hlen.
      assert (S (run not_gt s) <= length s)%nat as Hle.
      { apply (f_equal (@length N)) in Hskip. rewrite length_skipn in Hskip.
        cbn [length] in Hskip. lia. }
      rewrite replace_from_skip by done.
      replace (skipn (S (run not_gt s)) s) with rest.
      * cbn [Js.lit list_ascii_of_string List.map app]. f_equal. apply IH. lia.
      * change (S (run not_gt s)) with (1 + run not_gt s)%nat.
        by rewrite <- skipn_skipn, Hskip, skipn_cons, skipn_O.
  - f_equal. apply IH. lia.
Qed.

(** [s.replace(/<[^>]*>/g, ' ')] puts a space for every tag. *)
Lemma replace_tags s :
  replace re_tag (Js.lit " ") s = strip_tags s.
Proof. apply (replace_from_tags (S (length s))). lia. Qed.

(** Line 113 computes the cleaned text of the specification. *)
Lemma clean_cleaned_text reason : clean reason = cleaned_text reason.
Proof.
  unfold clean, cleaned_text. by rewrite replace_tags, replace_spaces.
Qed.

(** *** The cleaned text has no white space but single spaces *)

Lemma collapse_plain b s : Forall plain (collapse_from b s).
Proof.
  revert b. induction s as [|c s IH]; intros b; cbn [collapse_from];
    [constructor|].
  destruct (Js.is_space c) eqn:E.
  - destruct b; [apply IH|]. constructor; [done|apply IH].
  - constructor; [|apply IH]. intros H. congruence.
Qed.

Lemma trimStart_Forall (P : N -> Prop) s :
  Forall P s -> Forall P (Js.trimStart s).
Proof.
  induction 1 as [|c s Hc Hs IH]; cbn [Js.trimStart]; [constructor|].
  destruct (Js.is_space c); [done|by constructor].
Qed.

Lemma trim_Forall (P : N -> Prop) s : Forall P s -> Forall P (Js.trim s).
Proof.
  intros H. unfold Js.trim, Js.trimEnd.
  apply Forall_rev, trimStart_Forall, Forall_rev. by apply trimStart_Forall.
Qed.

Lemma line_terminator_space c :
  Js.is_line_terminator c = true -> Js.is_space c = true.
Proof.
  unfold Js.is_line_terminator, Js.is_space.
  rewrite !orb_true_iff, !andb_true_iff, !N.eqb_eq, !N.leb_le. lia.
Qed.

Lemma plain_is_dot c : plain c -> Js.is_dot c = true.
Proof.
  unfold plain, Js.is_dot. intros H.
  destruct (Js.is_line_terminator c) eqn:E; [|done].
  rewrite (H (line_terminator_space c E)) in E. done.
Qed.

Lemma cleaned_text_dots reason :
  Forall (fun c => Js.is_dot c = true) (cleaned_text reason).
Proof.
  eapply Forall_impl; [|intros c; apply plain_is_dot].
  apply trim_Forall, collapse_plain.
Qed.

(** *** The SMTP code *)

Lemma ok_one p r bol s :
  ok (match_here (One p :: r) bol s)
  = match s with
    | c :: s' => p c && ok (match_here r false s')
    | [] => false
    end.
Proof.
  cbn [match_here]. destruct s as [|c s]; [done|].
  destruct (p c); [|done]. by destruct (match_here r false s).
Qed.

(** A greedy [*] never gives characters back to a class disjoint from its
    own. *)
Lemma greedy_disjoint p q r bol s :
  (forall c, p c = true -> q c = false) ->
  greedy p (match_here (One q :: r)) bol s
  = (fun n => run p s + n)%nat
      <$> match_here (One q :: r) false (skip_while p s).
Proof.
  intros Hpq. revert bol. induction s as [|c s IH]; intros bol; [done|].
  cbn [greedy run skip_while]. destruct (p c) eqn:E.
  - rewrite IH.
    destruct (match_here (One q :: r) false (skip_while p s)); [done|].
    cbn [match_here]. by rewrite (Hpq c E).
  - by destruct (match_here (One q :: r) bol (c :: s)) eqn:E';
      cbn [match_here] in *; rewrite E'.
Qed.

Lemma digit_not_dot c : Js.is_digit c = true -> Js.is_char "." c = false.
Proof.
  unfold Js.is_digit, Js.is_char, Js.chr. cbn [N_of_ascii N_of_digits].
  rewrite andb_true_iff, !N.leb_le, N.eqb_neq. cbn. lia.
Qed.

Lemma space_not_digit c : Js.is_space c = true -> Js.is_digit c = false.
Proof.
  unfold Js.is_digit, Js.is_space.
  rewrite !orb_true_iff, !andb_true_iff, andb_false_iff, !N.eqb_eq, !N.leb_le,
    !N.leb_gt.
  lia.
Qed.

Lemma ok_digits_dot r bol s :
  ok (match_here (One Js.is_digit :: Star Js.is_digit :: One (Js.is_char ".") :: r) bol s)
  = match after_digits s with
    | Some (dot :: t) => Js.is_char "." dot && ok (match_here r false t)
    | _ => false
    end.
Proof.
  rewrite ok_one. unfold after_digits. destruct s as [|c s]; [done|].
  destruct (Js.is_digit c); [|done]. cbn [andb].
  change (match_here (Star Js.is_digit :: One (Js.is_char ".") :: r))
    with (greedy Js.is_digit (match_here (One (Js.is_char ".") :: r))).
  rewrite greedy_disjoint by apply digit_not_dot.
  rewrite ok_fmap, ok_one. done.
Qed.

Lemma ok_spaces_digit r bol s :
  ok (match_here (One Js.is_space :: Star Js.is_space :: One Js.is_digit :: r) bol s)
  = match s with
    | sp :: s1 =>
        Js.is_space sp
        && ok (match_here (One Js.is_digit :: r) false
                 (skip_while Js.is_space s1))
    | [] => false
    end.
Proof.
  rewrite ok_one. destruct s as [|c s]; [done|]. f_equal.
  change (match_here (Star Js.is_space :: One Js.is_digit :: r))
    with (greedy Js.is_space (match_here (One Js.is_digit :: r))).
  rewrite greedy_disjoint by apply space_not_digit.
  by rewrite ok_fmap.
Qed.

Lemma ok_digits_end bol s :
  ok (match_here [One Js.is_digit; Star Js.is_digit] bol s)
  = match s with
    | c :: _ => Js.is_digit c
    | [] => false
    end.
Proof.
  rewrite ok_one. destruct s as [|c s]; [done|].
  change (match_here [Star Js.is_digit]) with (greedy Js.is_digit (match_here [])).
  rewrite greedy_end. apply andb_true_r.
Qed.

Lemma search_bol r s : search (Bol :: r) false s = false.
Proof. induction s as [|c s IH]; cbn [search match_here]; done. Qed.

(** [^\d{3}\s+\d+\.\d+\.\d+] recognizes a leading SMTP code with its dotted
    status code. *)
Lemma test_smtp s : test re_smtp s = begins_with_smtp_code s.
Proof.
  unfold test. rewrite search_ok.
  replace (match s with [] => false | _ :: s' => search re_smtp false s' end)
    with false by (destruct s; [done|]; symmetry; apply search_bol).
  rewrite orb_false_r.
  unfold re_smtp, plus. cbn [app].
  change (match_here (Bol :: ?r) true s) with (match_here r true s).
  unfold begins_with_smtp_code.
  rewrite ok_one. destruct s as [|d1 s]; [done|].
  rewrite ok_one. destruct s as [|d2 s]; [by rewrite andb_false_r|].
  rewrite ok_one. destruct s as [|d3 s]; [by rewrite !andb_false_r|].
  rewrite ok_spaces_digit. destruct s as [|sp s1]; [by rewrite !andb_false_r|].
  rewrite !andb_assoc. f_equal.
  rewrite ok_digits_dot.
  destruct (after_digits (skip_while Js.is_space s1))
    as [[|dot1 s2]|]; try done.
  f_equal. rewrite ok_digits_dot.
  destruct (after_digits s2) as [[|dot2 t3]|]; try done.
  rewrite ok_digits_end. destruct t3; [by rewrite andb_false_r|done].
Qed.

(** *** The first sentence *)

Lemma match_here_sentence_end bol s :
  match_here re_sentence_end bol s
  = match s with
    | c :: _ => if is_sentence_end c then Some 1%nat else None
    | [] => None
    end.
Proof.
  unfold re_sentence_end. cbn [match_here]. destruct s as [|c s]; [done|].
  by destruct (is_sentence_end c).
Qed.

Lemma split_scan_first_sentence s :
  split_scan re_sentence_end s = first_sentence s.
Proof.
  induction s as [|c s IH]; [done|].
  cbn [split_scan first_sentence]. rewrite match_here_sentence_end.
  destruct (is_sentence_end c); [done|]. by rewrite IH.
Qed.

(** [s.split(/[.!?]/)[0]] is the first sentence. *)
Lemma split_head_first_sentence s :
  split_head re_sentence_end s = Some (first_sentence s).
Proof.
  unfold split_head. destruct s as [|c s]; rewrite match_here_sentence_end; [done|].
  cbn [first_sentence]. destruct (is_sentence_end c); [done|].
  by rewrite split_scan_first_sentence.
Qed.

(** *** The loop over the patterns *)

(** The loop returns at the first pattern that matches. *)
Lemma match_patterns_existsb ps cleaned :
  match_patterns ps cleaned
  = if existsb (fun p => test p cleaned) ps
    then Some (invalid_address cleaned) else None.
Proof.
  induction ps as [|p ps IH]; [done|].
  cbn [match_patterns existsb]. by destruct (test p cleaned).
Qed.

Lemma patterns_known_failures reason :
  existsb (fun p => test p (cleaned_text reason)) patterns
  = existsb (matches_failure (cleaned_text reason))
      known_failures.
Proof.
  unfold patterns, known_failures.
  cbn [existsb matches_failure].
  rewrite !test_literal_i.
  rewrite test_literal_then; [done|done|apply cleaned_text_dots].
Qed.

(** C1. [cleanBounceReason] is the function of its input that the
    specification describes: [null] gives an empty summary and no
    technical text; otherwise, on the text cleaned of tags and of surplus
    white space, (1) a known failure pattern gives the fixed
    invalid-address summary, (2) else a leading SMTP code with a dotted
    status code, or the phrase "error code", gives the fixed
    server-rejection summary, both with the cleaned text as technical
    text, (3) else a first sentence of more than 10 and fewer than 200
    code units gives that sentence with a full stop, the cleaned text
    being the technical text unless it equals the summary, (4) else the
    cleaned text is the summary and there is no technical text.  Phrases
    are matched without regard to case, as the [i] flag has it. *)
Theorem cleanBounceReason_refines (reason : option jsstring) :
  cleanBounceReason reason = cleanBounceReason_spec reason.
Proof.
  destruct reason as [[|c text]|]; [by vm_compute| |reflexivity].
  unfold cleanBounceReason, cleanBounceReason_spec.
  cbn [Js.truthy negb default]. cbv zeta.
  rewrite clean_cleaned_text.
  set (cleaned := cleaned_text (c :: text)).
  rewrite match_patterns_existsb. subst cleaned. rewrite patterns_known_failures.
  set (cleaned := cleaned_text (c :: text)).
  destruct (existsb _ known_failures); [reflexivity|].
  unfold re_error_code. rewrite test_smtp, test_literal_i.
  destruct (_ || _); [reflexivity|].
  rewrite split_head_first_sentence. cbn [default]. rewrite truthy_length.
  destruct (_ && _ && _); [|reflexivity].
  f_equal. unfold Js.str_eqb. by destruct (bool_decide _).
Qed.

(** The four outcomes on concrete reasons. *)

Example cleanBounceReason_known_failure :
  cleanBounceReason (Some (Js.lit "<p>550 5.1.1  User   Unknown</p>"))
  = {| summary :=
         Js.lit "The recipient's email address was not found or is invalid.";
       technical := Some (Js.lit "550 5.1.1 User Unknown") |}.
Proof. by vm_compute. Qed.

Example cleanBounceReason_smtp_code :
  cleanBounceReason (Some (Js.lit "552 5.2.2 Mailbox full"))
  = {| summary := Js.lit "The email server rejected the message.";
       technical := Some (Js.lit "552 5.2.2 Mailbox full") |}.
Proof. by vm_compute. Qed.

Example cleanBounceReason_error_code_any_case :
  cleanBounceReason (Some (Js.lit "Remote ERROR CODE 17"))
  = {| summary := Js.lit "The email server rejected the message.";
       technical := Some (Js.lit "Remote ERROR CODE 17") |}.
Proof. by vm_compute. Qed.

Example cleanBounceReason_first_sentence :
  cleanBounceReason (Some (Js.lit "Mailbox is full today. Try later"))
  = {| summary := Js.lit "Mailbox is full today.";
       technical := Some (Js.lit "Mailbox is full today. Try later") |}.
Proof. by vm_compute. Qed.

Example cleanBounceReason_sentence_is_all :
  cleanBounceReason (Some (Js.lit "Mailbox is full today."))
  = {| summary := Js.lit "Mailbox is full today."; technical := None |}.
Proof. by vm_compute. Qed.

Example cleanBounceReason_short :
  cleanBounceReason (Some (Js.lit "short. x"))
  = {| summary := Js.lit "short. x"; technical := None |}.
Proof. by vm_compute. Qed.

(** The cleaned text holds no white space but single inner spaces. *)
Lemma clean_plain reason : Forall plain (clean reason).
Proof.
  rewrite clean_cleaned_text. apply trim_Forall, collapse_plain.
Qed.

End BounceFacts.

(** ** Bounce explanations *)

(** C2. [getBounceExplanation] classifies by [bounceType] alone: ['hard']
    gives the permanent failure ("Delivery Failed", "Email address
    doesn't exist", error), ['soft'] the temporary issue ("Delivery
    Delayed", warning), every other value, [null] included, the generic
    failure ("Delivery Failed", error); [bounceReason] never matters. *)
Theorem getBounceExplanation_by_type :
  (forall bounceReason,
      let e := Bounce.getBounceExplanation (Some (Js.lit "hard")) bounceReason in
      Bounce.title e = Js.lit "Delivery Failed"
      /\ Bounce.subtitle e = Js.lit "Email address doesn't exist"
      /\ Bounce.Icon e = Lucide.MailX
      /\ Bounce.severity e = Bounce.error)
  /\ (forall bounceReason,
        let e := Bounce.getBounceExplanation (Some (Js.lit "soft")) bounceReason in
        Bounce.title e = Js.lit "Delivery Delayed"
        /\ Bounce.subtitle e = Js.lit "Temporary delivery issue"
        /\ Bounce.Icon e = Lucide.AlertTriangle
        /\ Bounce.severity e = Bounce.warning)
  /\ (forall bounceType bounceReason,
        bounceType <> Some (Js.lit "hard") ->
        bounceType <> Some (Js.lit "soft") ->
        let e := Bounce.getBounceExplanation bounceType bounceReason in
        Bounce.title e = Js.lit "Delivery Failed"
        /\ Bounce.subtitle e = Js.lit "Unable to deliver email"
        /\ Bounce.Icon e = Lucide.XCircle
        /\ Bounce.severity e = Bounce.error)
  /\ (forall bounceType bounceReason bounceReason',
        Bounce.getBounceExplanation bounceType bounceReason
        = Bounce.getBounceExplanation bounceType bounceReason').
Proof.
  split; [|split; [|split]].
  - intros br. by vm_compute.
  - intros br. by vm_compute.
  - intros bt br H1 H2. unfold Bounce.getBounceExplanation.
    rewrite !bool_decide_eq_false_2 by done. by cbn.
  - reflexivity.
Qed.

(** The generic explanation for a [null] bounce type. *)
Lemma getBounceExplanation_null :
  Bounce.title (Bounce.getBounceExplanation None (Some (Js.lit "550 5.1.1")))
  = Js.lit "Delivery Failed"
  /\ Bounce.severity (Bounce.getBounceExplanation None (Some (Js.lit "550 5.1.1")))
     = Bounce.error.
Proof.
  destruct getBounceExplanation_by_type as (_ & _ & H & _).
  destruct (H None (Some (Js.lit "550 5.1.1"))) as (H1 & _ & _ & H4); [done|done|].
  split; [exact H1|exact H4].
Defined.

(** ** The email viewer *)

Section EmailFacts.

Import Email EmailSpec.

Section Realtime.
Variable entityType : EntityType.
Variable entityId : jsstring.

Lemma belongsToEntity_field row :
  belongsToEntity entityType entityId row = true
  <-> entity_field entityType row = Some entityId.
Proof.
  unfold belongsToEntity, entity_field.
  destruct entityType; apply bool_decide_eq_true.
Qed.

Lemma cons_neq {A} (x : A) l : x :: l <> l.
Proof.
  intros H. apply (f_equal (@length A)) in H. cbn in H. lia.
Qed.

(** C7. An [INSERT] event puts its row at the front of the displayed list
    if and only if the row's entity id for the viewed [entityType]
    ([lead_id], [contact_id] or [account_id]) equals [entityId]; for any
    other row the state stays as it is. *)
Theorem insert_event_adds_own_rows (row : EmailHistoryItem) (st : State) :
  let st' := on_postgres_changes entityType entityId (INSERT row) st in
  (emails st' = row :: emails st
   <-> entity_field entityType row = Some entityId)
  /\ (entity_field entityType row = Some entityId ->
      st' = setEmails (cons row) st)
  /\ (entity_field entityType row <> Some entityId -> st' = st).
Proof.
  cbn [on_postgres_changes].
  destruct (belongsToEntity entityType entityId row) eqn:E.
  - apply belongsToEntity_field in E. split; [|split]; [by split| done | done].
  - assert (entity_field entityType row <> Some entityId) as Hne.
    { intros H. apply belongsToEntity_field in H. congruence. }
    split; [|split]; [|done|done].
    split; [|done]. intros H. exfalso. symmetry in H. by apply cons_neq in H.
Qed.

End Realtime.

Section Fetch.
Variable supabase : Query -> QueryOutcome.
Variable entityType : EntityType.
Variable entityId : jsstring.

(** C10. [fetchEmails] always ends, normally, with [loading] false; the
    list is overwritten only when the query resolves without an error (a
    [null] result giving the empty list) and is left alone when the query
    reports an error or is rejected. *)
Theorem fetchEmails_outcome (st : State) :
  let result := fetchEmails supabase entityType entityId st in
  snd result = inr tt
  /\ loading (fst result) = false
  /\ selectedEmail (fst result) = selectedEmail st
  /\ emails (fst result)
     = match supabase (history_query entityType entityId) with
       | Resolved data None => default [] data
       | Resolved _ (Some _) => emails st
       | Rejected _ => emails st
       end.
Proof.
  unfold fetchEmails, bind, try_catch_finally, await, modify, throw, ret.
  fold (history_query entityType entityId). cbn [fst snd].
  destruct (supabase (history_query entityType entityId)) as [data [err|]|e];
    cbn; done.
Qed.
End Fetch.

Section Badge.
Variable getTime : jsstring -> option Z.
Variable now : Z.

Lemma isRecentlySent_true email :
  isRecentlySent getTime now email = true <-> sent_recently getTime now email.
Proof.
  unfold isRecentlySent, sent_recently.
  destruct (getTime (sent_at email)) as [t|].
  - rewrite Z.ltb_lt. split; [intros H; by exists t|intros (t' & [= <-] & H); done].
  - split; [done|by intros (t' & ? & _)].
Qed.

Lemma count_above_0 c :
  count_above 0 c = true <-> exists n, c = Some n /\ (0 < n)%Z.
Proof.
  unfold count_above. destruct c as [n|].
  - rewrite andb_true_iff, negb_true_iff, Z.eqb_neq, Z.ltb_lt. split.
    + intros [_ H]. by exists n.
    + intros (n' & [= <-] & H). lia.
  - split; [done|by intros (n' & ? & _)].
Qed.

Lemma verifying_true email :
  Js.str_eqb (status email) (Js.lit "sent") && isRecentlySent getTime now email
    && negb (Js.truthy (bounce_type email)) = true
  <-> verifying getTime now email.
Proof.
  unfold verifying, no_bounce_type.
  rewrite !andb_true_iff, negb_true_iff, str_eqb_true, isRecentlySent_true, truthy_false.
  tauto.
Qed.

Lemma bounced_true email :
  Js.str_eqb (status email) (Js.lit "bounced") || Js.truthy (bounce_type email) = true
  <-> bounced email.
Proof.
  unfold bounced, no_bounce_type.
  rewrite orb_true_iff, str_eqb_true, <- truthy_false.
  destruct (Js.truthy (bounce_type email)); intuition congruence.
Qed.

Lemma replied_true email :
  Js.str_eqb (status email) (Js.lit "replied") || count_above 0 (reply_count email) = true
  <-> replied email.
Proof.
  unfold replied. by rewrite orb_true_iff, str_eqb_true, count_above_0.
Qed.

(** Once a test of the cascade has been decided, every line of the
    precedence either holds outright or has a premise that the decision
    refutes. *)
Ltac settle_badge :=
  repeat split; try done; intros;
  try (exfalso; intuition congruence); eauto.

(** C6 (amended). [getStatusBadge] selects one badge by a fixed
    precedence at the time [now]: "Verifying..." when the status is
    ['sent'], the email was sent less than 60 seconds ago and
    [bounce_type] is [null] or empty; else the bounce badge, titled by
    [getBounceExplanation], when the status is ['bounced'] or
    [bounce_type] is a non-empty string; else "Replied" when the status
    is ['replied'] or [reply_count] is positive; else, for ['opened'],
    "Suspicious" if [is_valid_open] is [false] and "Opened" otherwise;
    else "Delivered" for ['delivered']; else "Sent". *)
Theorem getStatusBadge_precedence (email : EmailHistoryItem) :
  let badge := getStatusBadge getTime now email in
  let V := verifying getTime now email in
  let B := bounced email in
  let R := replied email in
  let O := opened email in
  let D := delivered email in
  (V -> badge = Verifying)
  /\ (~ V -> B ->
      badge = BounceBadge
                (Bounce.title (Bounce.getBounceExplanation (bounce_type email) None)))
  /\ (~ V -> ~ B -> R -> exists count, badge = Replied count)
  /\ (~ V -> ~ B -> ~ R -> O ->
      badge = if bool_decide (is_valid_open email = Some false)
              then Suspicious else Opened)
  /\ (~ V -> ~ B -> ~ R -> ~ O -> D -> badge = Delivered)
  /\ (~ V -> ~ B -> ~ R -> ~ O -> ~ D -> badge = Sent).
Proof.
  cbv zeta. unfold getStatusBadge.
  pose proof (verifying_true email) as HV.
  pose proof (bounced_true email) as HB.
  pose proof (replied_true email) as HR.
  pose proof (str_eqb_true (status email) (Js.lit "opened")) as HO.
  pose proof (str_eqb_true (status email) (Js.lit "delivered")) as HD.
  unfold opened, delivered.
  destruct (_ && _ && negb _); [settle_badge|].
  destruct (_ || Js.truthy _); [settle_badge|].
  destruct (_ || count_above 0 _); [settle_badge|].
  destruct (Js.str_eqb (status email) (Js.lit "opened")); [settle_badge|].
  destruct (Js.str_eqb (status email) (Js.lit "delivered")); settle_badge.
Qed.

End Badge.

(** A hard bounce that is not being verified gets the bounce badge. *)
Lemma getStatusBadge_bounced :
  ~ verifying Samples.epoch 1000
      (Samples.email "bounced" (Some (Js.lit "hard")) None)
  /\ bounced (Samples.email "bounced" (Some (Js.lit "hard")) None)
  /\ getStatusBadge Samples.epoch 1000
       (Samples.email "bounced" (Some (Js.lit "hard")) None)
     = BounceBadge (Js.lit "Delivery Failed").
Proof.
  assert (~ verifying Samples.epoch 1000
            (Samples.email "bounced" (Some (Js.lit "hard")) None)) as HV.
  { intros [H _]. vm_compute in H. discriminate H. }
  assert (bounced
            (Samples.email "bounced" (Some (Js.lit "hard")) None)) as HB.
  { left. reflexivity. }
  split; [exact HV|]. split; [exact HB|].
  destruct (getStatusBadge_precedence Samples.epoch 1000
              (Samples.email "bounced" (Some (Js.lit "hard")) None))
    as (_ & H & _).
  exact (H HV HB).
Defined.

(** With the empty string as [bounce_type], an email sent a second ago is
    still being verified, where a test against [null] puts the bounce
    badge; sent long ago, it shows as sent. *)
Lemma getStatusBadge_empty_bounce_type :
  bounce_type (Samples.email "sent" (Some []) None) <> None
  /\ getStatusBadge Samples.epoch 1000 (Samples.email "sent" (Some []) None)
     = Verifying
  /\ badge_as_specified Samples.epoch 1000
       (Samples.email "sent" (Some []) None)
     = BounceBadge (Js.lit "Delivery Failed")
  /\ getStatusBadge Samples.epoch 86400000
       (Samples.email "sent" (Some []) None)
     = Sent
  /\ badge_as_specified Samples.epoch 86400000
       (Samples.email "sent" (Some []) None)
     = BounceBadge (Js.lit "Delivery Failed").
Proof. repeat split; try reflexivity. discriminate. Qed.

(** A row of the viewed lead enters an empty list. *)
Lemma insert_event_of_lead :
  entity_field lead
    (Samples.email "sent" None (Some (Js.lit "lead-7")))
  = Some (Js.lit "lead-7")
  /\ emails (on_postgres_changes lead (Js.lit "lead-7")
               (INSERT (Samples.email "sent" None (Some (Js.lit "lead-7"))))
               Samples.initial_state)
     = [Samples.email "sent" None (Some (Js.lit "lead-7"))].
Proof.
  split; [reflexivity|].
  destruct (insert_event_adds_own_rows lead (Js.lit "lead-7")
              (Samples.email "sent" None (Some (Js.lit "lead-7")))
              Samples.initial_state) as [[_ H] _].
  exact (H eq_refl).
Defined.

(** No channel is opened for an empty entity id. *)
Lemma subscription_needs_entity (entityType : EntityType) :
  subscription entityType [] = None.
Proof. reflexivity. Qed.

End EmailFacts.

(** ** The dashboard dialog *)

Section DashboardFacts.

Import Dashboard DashboardSpec.

#[local] Arguments DEFAULT_WIDGETS : simpl never.
#[local] Arguments find_key : simpl never.

Lemma find_key_Some l k w : find_key l k = Some w -> In w l /\ key w = k.
Proof.
  unfold find_key. intros H. apply find_some in H as [H1 H2].
  split; [done|]. by apply str_eqb_true.
Qed.

Lemma find_key_None l k : find_key l k = None <-> ~ In k (List.map key l).
Proof.
  unfold find_key. split.
  - intros H Hin. apply in_map_iff in Hin as (w & Hk & Hw).
    eapply find_none in H; [|exact Hw]. apply str_eqb_false in H. congruence.
  - intros H. destruct (List.find _ l) as [w|] eqn:E; [|done].
    apply find_some in E as [H1 H2]. apply str_eqb_true in H2.
    exfalso. apply H. apply in_map_iff. eauto.
Qed.

Lemma catalog_keys_NoDup : List.NoDup catalog_keys.
Proof. apply NoDup_ListNoDup, (bool_decide_unpack _). vm_compute. exact I. Qed.

Lemma catalog_NoDup : List.NoDup DEFAULT_WIDGETS.
Proof. eapply List.NoDup_map_inv. apply catalog_keys_NoDup. Qed.

Lemma catalog_key_inj w1 w2 :
  In w1 DEFAULT_WIDGETS -> In w2 DEFAULT_WIDGETS -> key w1 = key w2 -> w1 = w2.
Proof.
  intros H1 H2 Hk.
  pose proof catalog_keys_NoDup as Hnd. unfold catalog_keys in Hnd.
  revert H1 H2 Hnd. generalize DEFAULT_WIDGETS. intros l.
  induction l as [|w l IH]; simpl; [done|].
  intros [->|H1] [->|H2] Hnd; inversion Hnd as [|? ? Hn Hnd']; subst; auto.
  - exfalso. apply Hn. rewrite Hk. by apply in_map.
  - exfalso. apply Hn. rewrite <- Hk. by apply in_map.
Qed.

Lemma find_key_catalog w :
  In w DEFAULT_WIDGETS -> find_key DEFAULT_WIDGETS (key w) = Some w.
Proof.
  intros Hw. destruct (find_key DEFAULT_WIDGETS (key w)) as [w'|] eqn:E.
  - apply find_key_Some in E as [H1 H2]. f_equal. by apply catalog_key_inj.
  - apply find_key_None in E. exfalso. apply E. by apply in_map.
Qed.

Lemma add_saved_fold props order acc :
  fold_left (add_saved props) order acc
  = acc ++ List.map (with_settings props) (omap (find_key DEFAULT_WIDGETS) order).
Proof.
  revert acc. induction order as [|k order IH]; intros acc; simpl.
  - by rewrite app_nil_r.
  - rewrite IH. unfold add_saved.
    destruct (find_key DEFAULT_WIDGETS k) as [d|] eqn:E; simpl; [|done].
    apply find_key_Some in E as [_ <-]. unfold Array.push. by rewrite <- app_assoc.
Qed.

Lemma add_missing_fold props ds acc :
  List.NoDup (List.map key ds) ->
  fold_left (add_missing props) ds acc
  = acc ++ List.map (with_settings props)
             (List.filter (fun w => negb (bool_decide (key w ∈ List.map key acc))) ds).
Proof.
  revert acc. induction ds as [|w ds IH]; intros acc Hnd; simpl.
  - by rewrite app_nil_r.
  - inversion Hnd as [|? ? Hn Hnd']; subst.
    unfold add_missing at 2. destruct (find_key acc (key w)) as [w'|] eqn:E.
    + apply find_key_Some in E as [H1 H2].
      rewrite bool_decide_eq_true_2; simpl.
      * by apply IH.
      * rewrite list_elem_of_In, <- H2. by apply in_map.
    + apply find_key_None in E.
      rewrite bool_decide_eq_false_2 by (by rewrite list_elem_of_In). simpl.
      rewrite IH by done. unfold Array.push. rewrite <- app_assoc. simpl. do 3 f_equal.
      apply filter_ext_in. intros a Ha. f_equal. apply bool_decide_ext.
      rewrite map_app. simpl. rewrite elem_of_app, list_elem_of_singleton.
      split; [|tauto]. intros [H|H]; [done|]. exfalso. apply Hn.
      rewrite <- H. by apply in_map.
Qed.

Lemma in_omap_find_key order w :
  In w (omap (find_key DEFAULT_WIDGETS) order)
  <-> In w DEFAULT_WIDGETS /\ In (key w) order.
Proof.
  rewrite <- list_elem_of_In, list_elem_of_omap. split.
  - intros (k & Hk & E). apply find_key_Some in E as [H1 H2].
    split; [done|]. rewrite H2. by apply list_elem_of_In.
  - intros [H1 H2]. exists (key w). split; [by apply list_elem_of_In|].
    by apply find_key_catalog.
Qed.

Lemma keys_omap_find_key order :
  List.map key (omap (find_key DEFAULT_WIDGETS) order)
  = List.filter in_catalog order.
Proof.
  induction order as [|k order IH]; simpl; [done|].
  unfold in_catalog at 1.
  destruct (find_key DEFAULT_WIDGETS k) as [d|] eqn:E; simpl.
  - apply find_key_Some in E as [H1 H2].
    rewrite bool_decide_eq_true_2.
    + rewrite H2. f_equal. exact IH.
    + rewrite list_elem_of_In, <- H2. by apply in_map.
  - apply find_key_None in E.
    by rewrite bool_decide_eq_false_2 by (by rewrite list_elem_of_In).
Qed.

(** The two loops of the effect in closed form. *)
Lemma initialize_selection props :
  initialize props = List.map (with_settings props) (selection (widgetOrder props)).
Proof.
  unfold initialize, selection. rewrite add_saved_fold, app_nil_l.
  rewrite add_missing_fold by apply catalog_keys_NoDup.
  rewrite map_app. f_equal. f_equal. apply filter_ext_in. intros w Hw.
  f_equal. unfold Array.includes. apply bool_decide_ext.
  rewrite !list_elem_of_In.
  rewrite map_map. rewrite (map_ext _ key) by done.
  rewrite in_map_iff. split.
  - intros (d & Hk & Hd). apply in_omap_find_key in Hd as [_ Hd]. by rewrite <- Hk.
  - intros H. exists w. split; [done|]. by apply in_omap_find_key.
Qed.

Lemma selection_perm order :
  List.NoDup (List.filter in_catalog order) ->
  Permutation (selection order) DEFAULT_WIDGETS.
Proof.
  intros Hnd. apply Permutation.NoDup_Permutation.
  - unfold selection. apply List.NoDup_app.
    + rewrite <- keys_omap_find_key in Hnd. by apply List.NoDup_map_inv in Hnd.
    + apply List.NoDup_filter, catalog_NoDup.
    + intros w H1 H2.
      apply in_omap_find_key in H1 as [_ H1].
      apply filter_In in H2 as [_ H2]. apply negb_true_iff in H2.
      unfold Array.includes in H2. apply bool_decide_eq_false in H2.
      by rewrite list_elem_of_In in H2.
  - apply catalog_NoDup.
  - intros w. unfold selection. rewrite in_app_iff, in_omap_find_key, filter_In.
    rewrite negb_true_iff. unfold Array.includes. rewrite bool_decide_eq_false.
    rewrite list_elem_of_In.
    destruct (decide (key w ∈ order)) as [H|H]; rewrite list_elem_of_In in H; tauto.
Qed.


Section ListMoves.
Context {A : Type}.
Implicit Types (l : list A) (x : A).

Lemma splice_insert_clamped l (i : Z) (items : list A) :
  (0 <= i)%Z ->
  snd (Array.splice l i 0 items)
  = firstn (Z.to_nat i) l ++ items ++ skipn (Z.to_nat i) l.
Proof.
  intros Hi. unfold Array.splice. simpl.
  destruct (i <? 0)%Z eqn:E; [lia|].
  replace (Z.min (Z.max 0 0) _) with 0%Z by lia. simpl. rewrite Nat.add_0_r.
  destruct (decide (i <= Z.of_nat (length l))%Z) as [Hle|Hgt].
  - by replace (Z.min i (Z.of_nat (length l))) with i by lia.
  - replace (Z.min i (Z.of_nat (length l))) with (Z.of_nat (length l)) by lia.
    rewrite Nat2Z.id. rewrite !firstn_all2 by lia. by rewrite !skipn_all2 by lia.
Qed.

Lemma splice_remove_one l (i : nat) x :
  nth_error l i = Some x ->
  Array.splice l (Z.of_nat i) 1 [] = ([x], remove_at i l).
Proof.
  intros Hx. assert (i < length l)%nat as Hi by (apply nth_error_Some; congruence).
  unfold Array.splice, remove_at.
  destruct (Z.of_nat i <? 0)%Z eqn:E; [lia|].
  replace (Z.min (Z.of_nat i) (Z.of_nat (length l))) with (Z.of_nat i) by lia.
  replace (Z.min (Z.max 1 0) (Z.of_nat (length l) - Z.of_nat i)) with 1%Z by lia.
  rewrite Nat2Z.id. change (Z.to_nat 1) with 1%nat. simpl app.
  f_equal.
  - clear Hi E. revert i Hx.
    induction l as [|y l IH]; intros [|i] Hx; simpl in *; try congruence.
    + by inversion Hx.
    + by apply IH.
  - by rewrite Nat.add_1_r.
Qed.

Lemma remove_at_perm l i x :
  nth_error l i = Some x -> Permutation (x :: remove_at i l) l.
Proof.
  unfold remove_at. revert i.
  induction l as [|y l IH]; intros [|i] Hx; simpl in *; try congruence.
  - by inversion Hx.
  - rewrite perm_swap. constructor. by apply IH.
Qed.

Lemma insert_at_perm l i x : Permutation (insert_at i x l) (x :: l).
Proof.
  unfold insert_at. rewrite <- Permutation_middle.
  by rewrite firstn_skipn.
Qed.

Lemma insert_at_lookup l i x :
  (i <= length l)%nat -> nth_error (insert_at i x l) i = Some x.
Proof.
  intros Hi. unfold insert_at.
  rewrite nth_error_app2; rewrite length_firstn, Nat.min_l by lia; [|lia].
  by rewrite Nat.sub_diag.
Qed.

Lemma remove_at_length l i :
  (i < length l)%nat -> length (remove_at i l) = pred (length l).
Proof.
  intros Hi. unfold remove_at.
  rewrite length_app, length_firstn, length_skipn. lia.
Qed.

Lemma move_perm l src dst : Permutation (move src dst l) l.
Proof.
  unfold move. destruct (nth_error l src) as [x|] eqn:E; [|done].
  rewrite insert_at_perm. by apply remove_at_perm.
Qed.

End ListMoves.

Lemma remove_at_map {A B} (f : A -> B) i l :
  remove_at i (List.map f l) = List.map f (remove_at i l).
Proof. unfold remove_at. by rewrite map_app, firstn_map, skipn_map. Qed.

Lemma insert_at_map {A B} (f : A -> B) i x l :
  insert_at i (f x) (List.map f l) = List.map f (insert_at i x l).
Proof. unfold insert_at. by rewrite map_app, firstn_map; simpl; rewrite skipn_map. Qed.


Lemma handleDragEnd_move ws result dest x :
  destination result = Some dest ->
  nth_error ws (Z.to_nat (index (source result))) = Some x ->
  (0 <= index (source result))%Z -> (0 <= index dest)%Z ->
  handleDragEnd ws result
  = List.map Some (insert_at (Z.to_nat (index dest)) x
                (remove_at (Z.to_nat (index (source result))) ws)).
Proof.
  intros Hd Hx Hs Hdst. unfold handleDragEnd. rewrite Hd.
  rewrite <- (Z2Nat.id (index (source result))) at 1 by done.
  rewrite (splice_remove_one _ _ (Some x)) by (by rewrite nth_error_map, Hx).
  simpl hd. rewrite splice_insert_clamped by done.
  rewrite remove_at_map. by rewrite <- insert_at_map.
Qed.

(** C3. For a drag of a listed widget that has a destination,
    [handleDragEnd] yields the list with the element at the source index
    removed and re-inserted at the destination index, a permutation of
    the original list; a drag without destination leaves the list as it
    is. *)
Theorem handleDragEnd_reorders (ws : list DashboardWidget) (result : DropResult) :
  (destination result = None -> handleDragEnd ws result = List.map Some ws)
  /\ (forall dest,
        destination result = Some dest ->
        picks_listed result ws ->
        (0 <= index dest)%Z ->
        let src := Z.to_nat (index (source result)) in
        let dst := Z.to_nat (index dest) in
        handleDragEnd ws result = List.map Some (move src dst ws)
        /\ Permutation (move src dst ws) ws
        /\ ((dst < length ws)%nat ->
            nth_error (move src dst ws) dst = nth_error ws src)).
Proof.
  split.
  - intros Hd. unfold handleDragEnd. by rewrite Hd.
  - intros dest Hd [Hs1 Hs2] Hdst src dst.
    destruct (nth_error ws src) as [x|] eqn:Hx.
    2:{ apply nth_error_None in Hx. subst src. lia. }
    split; [|split].
    + unfold move. rewrite Hx. by apply handleDragEnd_move.
    + apply move_perm.
    + intros Hlt. unfold move. rewrite Hx.
      apply insert_at_lookup. rewrite remove_at_length; [lia|].
      apply nth_error_Some. congruence.
Qed.


Lemma identity_with_settings props w : identity (with_settings props w) = identity w.
Proof. done. Qed.

Lemma initialize_exactly_catalog props :
  order_without_repeats props ->
  exactly_catalog (initialize props).
Proof.
  intros H. unfold exactly_catalog. rewrite initialize_selection.
  rewrite map_map. rewrite (map_ext _ identity) by apply identity_with_settings.
  apply Permutation_map. by apply selection_perm.
Qed.

Lemma initialize_keys props :
  List.map key (initialize props)
  = List.filter in_catalog (widgetOrder props)
    ++ List.filter (fun k => negb (Array.includes (widgetOrder props) k))
         catalog_keys.
Proof.
  rewrite initialize_selection, map_map. rewrite (map_ext _ key) by done.
  unfold selection. rewrite map_app, keys_omap_find_key. f_equal.
  unfold catalog_keys. generalize DEFAULT_WIDGETS.
  intros l. induction l as [|w l IH]; simpl; [done|].
  destruct (negb _); simpl; by rewrite IH.
Qed.

Lemma toggleWidget_identity k ws :
  List.map identity (toggleWidget k ws) = List.map identity ws.
Proof.
  unfold toggleWidget. rewrite map_map. apply map_ext. intros w.
  by destruct (Js.str_eqb (key w) k).
Qed.

Lemma changeSize_identity k s ws :
  List.map identity (changeSize k s ws) = List.map identity ws.
Proof.
  unfold changeSize. rewrite map_map. apply map_ext. intros w.
  by destruct (Js.str_eqb (key w) k).
Qed.

Lemma handleReset_identity :
  List.map identity handleReset = List.map identity DEFAULT_WIDGETS.
Proof. unfold handleReset. rewrite map_map. by apply map_ext. Qed.

Lemma map_Some_inj {A} (l1 l2 : list A) : List.map Some l1 = List.map Some l2 -> l1 = l2.
Proof.
  revert l2. induction l1 as [|x l1 IH]; intros [|y l2] H; simpl in *; try congruence.
  inversion H. f_equal. by apply IH.
Qed.

Lemma splice_insert_some {A} (l : list A) (i : Z) (items : list A) :
  exists a, snd (Array.splice l i 0 items) = firstn a l ++ items ++ skipn a l.
Proof.
  unfold Array.splice. cbv zeta. unfold snd.
  set (len := Z.of_nat (length l)).
  set (a := if (i <? 0)%Z then Z.max (len + i) 0 else Z.min i len).
  assert (0 <= len)%Z as Hlen by (subst len; lia).
  assert (a <= len)%Z as Ha by (subst a; destruct (Z.ltb_spec i 0); lia).
  exists (Z.to_nat a).
  replace (Z.min (Z.max 0 0) (len - a)) with 0%Z by lia.
  by rewrite Nat.add_0_r.
Qed.

(** A drag of a listed widget permutes the list, wherever it is dropped. *)
Lemma handleDragEnd_listed ws result :
  picks_listed result ws ->
  exists ws', handleDragEnd ws result = List.map Some ws' /\ Permutation ws' ws.
Proof.
  intros [H1 H2]. unfold handleDragEnd.
  destruct (destination result) as [dest|]; [|by exists ws].
  destruct (nth_error ws (Z.to_nat (index (source result)))) as [x|] eqn:Hx.
  2:{ apply nth_error_None in Hx. lia. }
  assert (Array.splice (List.map Some ws) (index (source result)) 1 []
          = ([Some x], List.map Some (remove_at
                                   (Z.to_nat (index (source result))) ws))) as ->.
  { rewrite <- (Z2Nat.id (index (source result))) at 1 by done.
    rewrite (splice_remove_one _ _ (Some x)) by (by rewrite nth_error_map, Hx).
    by rewrite remove_at_map. }
  simpl hd.
  destruct (splice_insert_some
              (List.map Some (remove_at (Z.to_nat (index (source result))) ws))
              (index dest) [Some x]) as [a ->].
  exists (insert_at a x (remove_at (Z.to_nat (index (source result))) ws)).
  split.
  - by rewrite <- insert_at_map.
  - rewrite insert_at_perm. by apply remove_at_perm.
Qed.

Lemma apply_Init props ws :
  apply (Init props) ws = List.map Some (initialize props).
Proof. reflexivity. Qed.

Lemma apply_Toggle k ws :
  apply (Toggle k) ws = List.map Some (toggleWidget k ws).
Proof. reflexivity. Qed.

Lemma apply_Resize k s ws :
  apply (Resize k s) ws = List.map Some (changeSize k s ws).
Proof. reflexivity. Qed.

Lemma apply_Drag result ws : apply (Drag result) ws = handleDragEnd ws result.
Proof. reflexivity. Qed.

Lemma apply_ResetDefaults ws : apply ResetDefaults ws = List.map Some handleReset.
Proof. reflexivity. Qed.

Lemma apply_preserves ws a :
  exactly_catalog ws ->
  enabled order_without_repeats a ws ->
  exists ws', apply a ws = List.map Some ws' /\ exactly_catalog ws'.
Proof.
  intros Hw He. destruct a as [props|k|k s|result|].
  - exists (initialize props). split; [apply apply_Init|].
    by apply initialize_exactly_catalog.
  - exists (toggleWidget k ws). split; [apply apply_Toggle|].
    unfold exactly_catalog. by rewrite toggleWidget_identity.
  - exists (changeSize k s ws). split; [apply apply_Resize|].
    unfold exactly_catalog. by rewrite changeSize_identity.
  - destruct (handleDragEnd_listed ws result He) as (ws' & E & P).
    exists ws'. split; [by rewrite apply_Drag|].
    unfold exactly_catalog.
    by rewrite (Permutation_map identity P).
  - exists handleReset. split; [apply apply_ResetDefaults|].
    unfold exactly_catalog. by rewrite handleReset_identity.
Qed.

Lemma exactly_catalog_keys ws :
  exactly_catalog ws ->
  Permutation (List.map key ws) catalog_keys.
Proof.
  intros H. apply (Permutation_map (fun i => fst (fst i))) in H.
  rewrite !map_map in H. exact H.
Qed.

(** The catalog invariant holds in every reachable state. *)
Lemma reachable_exactly_catalog ws :
  reachable order_without_repeats ws ->
  exactly_catalog ws.
Proof.
  induction 1 as [props Hok|ws a ws' Hr IH He Ha].
  - by apply initialize_exactly_catalog.
  - destruct (apply_preserves ws a IH He) as (ws'' & E & Hc).
    rewrite Ha in E. apply map_Some_inj in E. by subst.
Qed.

(** C4 (amended). The initialization effect keeps the keys of
    [widgetOrder] that are in the catalog and appends the catalog widgets
    that [widgetOrder] omits.  When [widgetOrder] names no catalog key
    twice, the resulting list consists of exactly the widgets of
    [DEFAULT_WIDGETS], each key once; [toggleWidget], [changeSize],
    [handleDragEnd] of a listed widget, [handleReset] and a renewed
    initialization keep it so. *)
Theorem widgets_exactly_catalog :
  (forall props,
      List.map key (initialize props)
      = List.filter in_catalog (widgetOrder props)
        ++ List.filter (fun k => negb (Array.includes (widgetOrder props) k))
             catalog_keys)
  /\ (forall props,
        order_without_repeats props ->
        exactly_catalog (initialize props))
  /\ (forall ws a,
        exactly_catalog ws ->
        enabled order_without_repeats a ws ->
        exists ws', apply a ws = List.map Some ws'
                    /\ exactly_catalog ws')
  /\ (forall ws,
        reachable order_without_repeats ws ->
        exactly_catalog ws
        /\ List.NoDup (List.map key ws)
        /\ (forall k, In k (List.map key ws) <-> In k catalog_keys)).
Proof.
  split; [exact initialize_keys|]. split; [exact initialize_exactly_catalog|].
  split; [exact apply_preserves|]. intros ws Hr.
  apply reachable_exactly_catalog in Hr. split; [done|].
  apply exactly_catalog_keys in Hr. split.
  - eapply Permutation_NoDup; [symmetry; exact Hr|]. apply catalog_keys_NoDup.
  - intros k. split; apply Permutation_in; [done|by symmetry].
Qed.

(** A saved order that names [leads] twice gives a list with [leads]
    twice. *)
Lemma initialize_repeated_order :
  ~ exactly_catalog (initialize Samples.repeated_order)
  /\ ~ List.NoDup (List.map key (initialize Samples.repeated_order)).
Proof.
  split.
  - intros H. apply Permutation_length in H. vm_compute in H. discriminate.
  - intros H. apply NoDup_ListNoDup, (bool_decide_pack _) in H. vm_compute in H. exact H.
Qed.

(** The [forEach] of [handleSave]: later widgets overwrite earlier ones. *)
Lemma sizes_fold (ws : list DashboardWidget) (m : gmap jsstring WidgetSize)
  (k : jsstring) :
  fold_left (fun sizes w => <[key w := size w]> sizes) ws m !! k
  = match last_with_key k ws with
    | Some w => Some (size w)
    | None => m !! k
    end.
Proof.
  revert m. induction ws as [|w ws IH]; intros m; [done|].
  cbn [fold_left last_with_key]. rewrite IH.
  destruct (last_with_key k ws) as [w'|]; [done|].
  destruct (Js.str_eqb (key w) k) eqn:E.
  - apply str_eqb_true in E. subst k. by rewrite lookup_insert_eq.
  - apply str_eqb_false in E. by rewrite lookup_insert_ne.
Qed.

Lemma visible_sublist ws :
  sublist (List.map key (List.filter visible ws)) (List.map key ws).
Proof.
  induction ws as [|w ws IH]; cbn [List.filter List.map]; [constructor|].
  destruct (visible w); cbn [List.map]; by constructor.
Qed.

Lemma last_with_key_In k ws w :
  last_with_key k ws = Some w -> In w ws /\ key w = k.
Proof.
  induction ws as [|v ws IH]; cbn [last_with_key]; [done|].
  destruct (last_with_key k ws) as [w'|].
  - intros [= ->]. destruct IH as [H1 H2]; [done|]. split; [by right|done].
  - destruct (Js.str_eqb (key v) k) eqn:E; [|done].
    intros [= ->]. apply str_eqb_true in E. split; [by left|done].
Qed.

Lemma last_with_key_None k ws :
  last_with_key k ws = None -> ~ In k (List.map key ws).
Proof.
  induction ws as [|v ws IH]; cbn [last_with_key List.map]; [by intros _ []|].
  destruct (last_with_key k ws) as [w'|]; [done|].
  destruct (Js.str_eqb (key v) k) eqn:E; [done|].
  apply str_eqb_false in E. intros _ [H|H]; [done|by apply IH].
Qed.

Lemma sizes_lookup (ws : list DashboardWidget) (k : jsstring) :
  fold_left (fun sizes w => <[key w := size w]> sizes) ws
    (∅ : gmap jsstring WidgetSize) !! k
  = size <$> last_with_key k ws.
Proof.
  rewrite sizes_fold, lookup_empty. by destruct (last_with_key k ws).
Qed.

Lemma sizes_key_determines (ws : list DashboardWidget) (w : DashboardWidget) :
  key_determines ws -> In w ws ->
  fold_left (fun sizes w => <[key w := size w]> sizes) ws
    (∅ : gmap jsstring WidgetSize) !! key w
  = Some (size w).
Proof.
  intros Hdet Hw. rewrite sizes_lookup.
  destruct (last_with_key (key w) ws) as [w'|] eqn:E.
  - apply last_with_key_In in E as [H1 H2]. cbn. f_equal. f_equal. by apply Hdet.
  - apply last_with_key_None in E. exfalso. apply E. by apply in_map.
Qed.

(** C5. [handleSave] hands to [onSave]: as order the keys of the list in
    display order; as visible keys those of the widgets whose flag is
    set, in the same order, hence a subsequence of the order; as sizes a
    map defined exactly on the keys of the list, which gives every widget
    of the list its current size (for a key held by several widgets, that
    of the last one). *)
Theorem handleSave_arguments (ws : list DashboardWidget) :
  exists sizes : gmap jsstring WidgetSize,
    handleSave ws
    = (List.map key (List.filter visible ws), List.map key ws, sizes)
    /\ sublist (List.map key (List.filter visible ws)) (List.map key ws)
    /\ (forall k, sizes !! k = size <$> last_with_key k ws)
    /\ (forall k, is_Some (sizes !! k) <-> In k (List.map key ws))
    /\ (key_determines ws ->
        forall w, In w ws -> sizes !! key w = Some (size w)).
Proof.
  eexists. split; [reflexivity|]. split; [apply visible_sublist|].
  split; [exact (sizes_lookup ws)|]. split.
  - intros k. rewrite sizes_lookup.
    destruct (last_with_key k ws) as [w|] eqn:E.
    + apply last_with_key_In in E as [H1 H2]. split; [|by eexists].
      intros _. rewrite <- H2. by apply in_map.
    + apply last_with_key_None in E. split; [|done]. by intros [? ?].
  - intros Hdet w Hw. by apply sizes_key_determines.
Qed.

(** Widgets that share a key stay equal, whatever the props. *)

Lemma key_determines_map (f : DashboardWidget -> DashboardWidget) ws :
  (forall w, key (f w) = key w) ->
  key_determines ws -> key_determines (List.map f ws).
Proof.
  intros Hf Hdet w1 w2 H1 H2 Hk.
  apply in_map_iff in H1 as (v1 & <- & H1). apply in_map_iff in H2 as (v2 & <- & H2).
  rewrite !Hf in Hk. f_equal. by apply Hdet.
Qed.

Lemma key_determines_NoDup ws :
  List.NoDup (List.map key ws) -> key_determines ws.
Proof.
  induction ws as [|w ws IH]; intros Hnd w1 w2 H1 H2 Hk; [done|].
  cbn [List.map] in Hnd. inversion Hnd as [|? ? Hn Hnd']; subst.
  destruct H1 as [->|H1], H2 as [->|H2]; auto.
  - exfalso. apply Hn. rewrite Hk. by apply in_map.
  - exfalso. apply Hn. rewrite <- Hk. by apply in_map.
  - by apply IH.
Qed.

Lemma selection_catalog order w : In w (selection order) -> In w DEFAULT_WIDGETS.
Proof.
  unfold selection. rewrite in_app_iff, in_omap_find_key, filter_In. tauto.
Qed.

Lemma initialize_key_determines props :
  key_determines (initialize props).
Proof.
  rewrite initialize_selection. intros w1 w2 H1 H2 Hk.
  apply in_map_iff in H1 as (v1 & <- & H1). apply in_map_iff in H2 as (v2 & <- & H2).
  f_equal. apply catalog_key_inj; eauto using selection_catalog.
Qed.

Lemma key_determines_perm ws ws' :
  Permutation ws' ws -> key_determines ws -> key_determines ws'.
Proof.
  intros P Hdet w1 w2 H1 H2. apply Hdet; by eapply Permutation_in.
Qed.

Lemma handleReset_key_determines : key_determines handleReset.
Proof.
  unfold handleReset. apply key_determines_map; [done|].
  apply key_determines_NoDup. exact catalog_keys_NoDup.
Qed.

Lemma reachable_key_determines ok ws :
  reachable ok ws -> key_determines ws.
Proof.
  induction 1 as [props Hok|ws a ws' Hr IH He Ha].
  - apply initialize_key_determines.
  - destruct a as [props|k|k s|result|].
    + rewrite apply_Init in Ha. apply map_Some_inj in Ha. rewrite <- Ha.
      apply initialize_key_determines.
    + rewrite apply_Toggle in Ha. apply map_Some_inj in Ha. rewrite <- Ha.
      apply key_determines_map; [|done].
      intros w. by destruct (Js.str_eqb (key w) k).
    + rewrite apply_Resize in Ha. apply map_Some_inj in Ha. rewrite <- Ha.
      apply key_determines_map; [|done].
      intros w. by destruct (Js.str_eqb (key w) k).
    + rewrite apply_Drag in Ha.
      destruct (handleDragEnd_listed ws result He) as (ws'' & E & P).
      rewrite Ha in E. apply map_Some_inj in E. rewrite E.
      by apply (key_determines_perm ws).
    + rewrite apply_ResetDefaults in Ha. apply map_Some_inj in Ha. rewrite <- Ha.
      apply handleReset_key_determines.
Qed.

(** C8. [handleReset] replaces the list by the catalog in catalog order,
    with the catalog's labels, icons and sizes, and with every widget
    visible, also those the catalog hides. *)
Theorem handleReset_all_visible :
  (forall ws, apply ResetDefaults ws = List.map Some handleReset)
  /\ List.map key handleReset = List.map key DEFAULT_WIDGETS
  /\ List.map label handleReset = List.map label DEFAULT_WIDGETS
  /\ List.map icon handleReset = List.map icon DEFAULT_WIDGETS
  /\ List.map size handleReset = List.map size DEFAULT_WIDGETS
  /\ List.map visible handleReset = repeat true (length DEFAULT_WIDGETS)
  /\ Exists (fun w => visible w = false) DEFAULT_WIDGETS.
Proof.
  split; [exact apply_ResetDefaults|]. unfold handleReset. rewrite !map_map.
  split; [by apply map_ext|]. split; [by apply map_ext|].
  split; [by apply map_ext|]. split; [by apply map_ext|]. split.
  - generalize DEFAULT_WIDGETS. intros l. induction l as [|w l IH]; [reflexivity|].
    cbn [List.map length repeat]. by rewrite IH.
  - apply Exists_exists.
    exists (widget "salesTarget" "Sales Target" Lucide.Target false medium).
    split; [|reflexivity]. apply list_elem_of_In.
    unfold DEFAULT_WIDGETS. do 10 right. left. reflexivity.
Qed.

(** C9. [toggleWidget k] negates the visible flag of the widget with key
    [k] and changes nothing else: widgets with another key are unchanged,
    and key, label, icon and size of the widget with key [k] are kept;
    toggling twice restores the list. *)
Theorem toggleWidget_frame (k : jsstring) (ws : list DashboardWidget) :
  Forall2 (toggled k) ws (toggleWidget k ws)
  /\ toggleWidget k (toggleWidget k ws) = ws.
Proof.
  split.
  - induction ws as [|w ws IH]; simpl; constructor; auto.
    unfold toggled. destruct (Js.str_eqb (key w) k) eqn:E; simpl.
    + repeat split; auto. intros Hne. apply str_eqb_true in E. contradiction.
    + repeat split; auto.
  - induction ws as [|w ws IH]; simpl; [done|]. rewrite IH. f_equal.
    destruct (Js.str_eqb (key w) k) eqn:E; simpl; rewrite E; [|done].
    destruct w as [k0 l i v s]; unfold with_visible; simpl. by rewrite negb_involutive.
Qed.

(** The first of three widgets dragged to the last place. *)
Lemma handleDragEnd_first_to_last :
  picks_listed Samples.first_to_last Samples.three
  /\ handleDragEnd Samples.three Samples.first_to_last
     = List.map Some [Samples.contacts; Samples.deals; Samples.leads].
Proof.
  assert (picks_listed Samples.first_to_last Samples.three) as Hp.
  { unfold picks_listed. vm_compute. split; [discriminate|reflexivity]. }
  split; [exact Hp|].
  destruct (handleDragEnd_reorders Samples.three Samples.first_to_last) as [_ H].
  destruct (H {| index := 2 |} eq_refl Hp) as (E & _ & _).
  - vm_compute. discriminate.
  - exact E.
Defined.

(** A source index that names no item: nothing is removed and
    [undefined] is inserted. *)
Example handleDragEnd_from_nowhere :
  handleDragEnd Samples.three Samples.from_nowhere
  = None :: List.map Some Samples.three.
Proof. reflexivity. Qed.

(** A saved order without repeats yields the whole catalog. *)
Lemma initialize_saved_order :
  order_without_repeats Samples.saved_order
  /\ exactly_catalog (initialize Samples.saved_order).
Proof.
  assert (order_without_repeats Samples.saved_order) as H.
  { unfold order_without_repeats.
    apply NoDup_ListNoDup, (bool_decide_unpack _). vm_compute. exact I. }
  split; [exact H|].
  destruct widgets_exactly_catalog as (_ & Hinit & _).
  exact (Hinit Samples.saved_order H).
Defined.

(** The sizes saved for three distinct widgets. *)
Lemma handleSave_three :
  key_determines Samples.three
  /\ exists sizes : gmap jsstring WidgetSize,
       handleSave Samples.three
       = ([Js.lit "leads"; Js.lit "deals"],
          [Js.lit "leads"; Js.lit "contacts"; Js.lit "deals"], sizes)
       /\ sizes !! Js.lit "deals" = Some large.
Proof.
  assert (key_determines Samples.three) as Hk.
  { apply key_determines_NoDup, NoDup_ListNoDup, (bool_decide_unpack _).
    vm_compute. exact I. }
  split; [exact Hk|].
  destruct (handleSave_arguments Samples.three) as (sizes & E & _ & _ & _ & H).
  exists sizes. split; [exact E|].
  apply (H Hk Samples.deals). vm_compute. tauto.
Defined.

(** Whatever the props, every reachable list gives each of its widgets
    its own size on saving. *)
Lemma handleSave_reachable ok ws w :
  reachable ok ws -> In w ws ->
  snd (handleSave ws) !! key w = Some (size w).
Proof.
  intros Hr Hw. apply reachable_key_determines in Hr.
  cbn [handleSave snd]. by apply sizes_key_determines.
Qed.

End DashboardFacts.

(** ** More on the email viewer *)

Section EmailViewFacts.

Import Email EmailSpec EmailView.

Lemma highlighted_bounced email : highlighted email = true <-> bounced email.
Proof. apply bounced_true. Qed.

Lemma verifying_not_highlighted getTime now email :
  verifying getTime now email -> highlighted email = false.
Proof.
  intros (Hs & _ & Hb). unfold highlighted. rewrite Hs.
  apply truthy_false in Hb. by rewrite Hb.
Qed.



Lemma sent_not_bounced email :
  Js.str_eqb (status email) (Js.lit "sent") = true ->
  Js.str_eqb (status email) (Js.lit "bounced") = false.
Proof. intros H. apply str_eqb_true in H. by rewrite H. Qed.

Lemma getStatusBadge_bounce_iff getTime now email t :
  getStatusBadge getTime now email = BounceBadge t
  <-> highlighted email = true
      /\ t = Bounce.title (Bounce.getBounceExplanation (bounce_type email) None).
Proof.
  unfold getStatusBadge, highlighted.
  destruct (Js.str_eqb (status email) (Js.lit "sent")
            && isRecentlySent getTime now email
            && negb (Js.truthy (bounce_type email))) eqn:V.
  - apply andb_true_iff in V as [V Hb]. apply andb_true_iff in V as [Hs _].
    apply negb_true_iff in Hb. rewrite (sent_not_bounced _ Hs), Hb.
    split; [discriminate|]. intros [? _]. discriminate.
  - destruct (Js.str_eqb (status email) (Js.lit "bounced")
              || Js.truthy (bounce_type email)).
    + split; [intros [= <-]; done|]. by intros [_ ->].
    + split; [|intros [? _]; discriminate].
      destruct (_ || count_above 0 _); [discriminate|].
      destruct (Js.str_eqb _ (Js.lit "opened"));
        [by destruct (bool_decide _)|].
      by destruct (Js.str_eqb _ (Js.lit "delivered")).
Qed.

Lemma getOpenCountDisplay_bounce_iff email t :
  getOpenCountDisplay email = BounceText t
  <-> highlighted email = true
      /\ t = Bounce.title (Bounce.getBounceExplanation (bounce_type email) None).
Proof.
  unfold getOpenCountDisplay, highlighted.
  destruct (Js.str_eqb (status email) (Js.lit "bounced")
            || Js.truthy (bounce_type email)).
  - split; [intros [= <-]; done|]. by intros [_ ->].
  - cbv zeta. split; [|intros [? _]; discriminate].
    destruct (or_zero (open_count email) =? 0)%Z; [discriminate|].
    destruct (bool_decide _); [discriminate|]. by destruct (_ <? _)%Z.
Qed.

(** X2. The card and the badge agree on bounces: the open count is
    replaced by the bounce title exactly when the badge is the bounce
    badge, with the same title, and exactly then the card is
    highlighted. *)
Theorem bounce_display_agrees (getTime : jsstring -> option Z) (now : Z)
  (email : EmailHistoryItem) :
  (forall title,
      getOpenCountDisplay email = BounceText title
      <-> getStatusBadge getTime now email = BounceBadge title)
  /\ (highlighted email = true
      <-> exists t, getStatusBadge getTime now email = BounceBadge t).
Proof.
  split.
  - intros title.
    by rewrite getOpenCountDisplay_bounce_iff, getStatusBadge_bounce_iff.
  - split.
    + intros H. eexists. apply getStatusBadge_bounce_iff. by split.
    + intros [t Ht]. by apply getStatusBadge_bounce_iff in Ht as [? _].
Qed.

Lemma bounce_display_agrees_witness :
  getStatusBadge Samples.epoch 1000
    (Samples.email "delivered" (Some (Js.lit "soft")) None)
  = BounceBadge (Js.lit "Delivery Delayed").
Proof.
  apply (proj1 (bounce_display_agrees Samples.epoch 1000
                  (Samples.email "delivered" (Some (Js.lit "soft")) None))).
  reflexivity.
Defined.

Lemma isRecentlySent_earlier getTime now now' email :
  (now <= now')%Z -> isRecentlySent getTime now' email = true ->
  isRecentlySent getTime now email = true.
Proof.
  unfold isRecentlySent. destruct (getTime (sent_at email)); [|done].
  rewrite !Z.ltb_lt. lia.
Qed.

(** X3. Time enters the badge only through "Verifying...": a badge other
    than "Verifying..." is final, it is the badge at every later time;
    and an email that is not ['sent'], has a bounce type, or has no valid
    date has the same badge at all times. *)
Theorem getStatusBadge_settles (getTime : jsstring -> option Z) (now now' : Z)
  (email : EmailHistoryItem) :
  (getStatusBadge getTime now email <> Verifying -> (now <= now')%Z ->
   getStatusBadge getTime now' email = getStatusBadge getTime now email)
  /\ (status email <> Js.lit "sent" \/ Js.truthy (bounce_type email) = true
      \/ getTime (sent_at email) = None ->
      getStatusBadge getTime now' email = getStatusBadge getTime now email)
  /\ (forall t, getTime (sent_at email) = Some t -> (t + 60000 <= now)%Z ->
      getStatusBadge getTime now email <> Verifying).
Proof.
  split; [|split].
  - intros Hv Hle. unfold getStatusBadge in *.
    destruct (Js.str_eqb (status email) (Js.lit "sent")); [|done].
    destruct (Js.truthy (bounce_type email));
      [by rewrite !andb_false_r|].
    rewrite !andb_true_r in *. cbn [andb] in *.
    destruct (isRecentlySent getTime now email) eqn:E; [done|].
    destruct (isRecentlySent getTime now' email) eqn:E'; [|done].
    apply (isRecentlySent_earlier _ _ _ _ Hle) in E'. congruence.
  - intros H. unfold getStatusBadge, isRecentlySent.
    destruct H as [H|[H|H]].
    + apply str_eqb_false in H. by rewrite H.
    + by rewrite H, !andb_false_r.
    + by rewrite H.
  - intros t Ht Hle. unfold getStatusBadge, isRecentlySent. rewrite Ht.
    replace (now - t <? 60000)%Z with false by (symmetry; apply Z.ltb_ge; lia).
    rewrite andb_false_r. cbn [andb].
    destruct (_ || Js.truthy _); [done|].
    destruct (_ || count_above 0 _); [done|].
    destruct (Js.str_eqb _ (Js.lit "opened")); [by destruct (bool_decide _)|].
    by destruct (Js.str_eqb _ (Js.lit "delivered")).
Qed.

Lemma getStatusBadge_settles_witness :
  getStatusBadge Samples.epoch 70000 (Samples.email "sent" None None)
  = getStatusBadge Samples.epoch 60000 (Samples.email "sent" None None).
Proof.
  destruct (getStatusBadge_settles Samples.epoch 60000 70000
              (Samples.email "sent" None None)) as [H _].
  apply H; [discriminate|lia].
Defined.

(** X4. An [UPDATE] event never adds, removes or reorders rows: the ids of
    the list stay as they are, rows with another id are untouched, and an
    update for an id that is not listed changes nothing in the list; the
    selected email keeps its id; a [DELETE] event is ignored. *)
Theorem update_event_keeps_rows (entityType : EntityType) (entityId : jsstring)
  (updated : EmailHistoryItem) (st : State) :
  let st' := on_postgres_changes entityType entityId (UPDATE updated) st in
  List.map id (emails st') = List.map id (emails st)
  /\ Forall2 (fun e e' => id e <> id updated -> e' = e) (emails st) (emails st')
  /\ (~ In (id updated) (List.map id (emails st)) -> emails st' = emails st)
  /\ loading st' = loading st
  /\ id <$> selectedEmail st' = id <$> selectedEmail st
  /\ (forall old_id,
        on_postgres_changes entityType entityId (DELETE old_id) st = st).
Proof.
  cbv zeta. cbn [on_postgres_changes].
  set (f := fun e => if Js.str_eqb (id e) (id updated) then updated else e).
  assert (emails (if bool_decide (id <$> selectedEmail st = Some (id updated))
                  then setSelectedEmail
                         (fun prev => match prev with
                                      | Some _ => Some updated
                                      | None => None
                                      end) (setEmails (List.map f) st)
                  else setEmails (List.map f) st)
          = List.map f (emails st)) as ->.
  { by destruct (bool_decide _). }
  split; [|split; [|split; [|split; [|split]]]].
  - rewrite map_map. apply map_ext. intros e. subst f. cbn.
    destruct (Js.str_eqb (id e) (id updated)) eqn:E; [|done].
    by apply str_eqb_true in E.
  - induction (emails st) as [|e l IH]; cbn [List.map]; constructor; [|done].
    intros Hne. subst f. cbn. apply str_eqb_false in Hne. by rewrite Hne.
  - intros Hnot. induction (emails st) as [|e l IH]; [done|].
    cbn [List.map] in *. f_equal.
    + subst f. cbn. destruct (Js.str_eqb (id e) (id updated)) eqn:E; [|done].
      apply str_eqb_true in E. exfalso. apply Hnot. by left.
    + apply IH. intros H. apply Hnot. by right.
  - by destruct (bool_decide _).
  - destruct (bool_decide _) eqn:E; [|done].
    apply bool_decide_eq_true in E. cbn [setSelectedEmail selectedEmail setEmails].
    destruct (selectedEmail st); [|done]. cbn in *. congruence.
  - done.
Qed.

Lemma update_event_unlisted :
  emails (on_postgres_changes lead (Js.lit "lead-7")
            (UPDATE (Samples.email "opened" None (Some (Js.lit "lead-7"))))
            Samples.initial_state)
  = [].
Proof.
  destruct (update_event_keeps_rows lead (Js.lit "lead-7")
              (Samples.email "opened" None (Some (Js.lit "lead-7")))
              Samples.initial_state) as (_ & _ & H & _).
  apply H. cbn. tauto.
Defined.

Lemma fetchEmails_loading supabase entityType entityId st :
  loading (fst (fetchEmails supabase entityType entityId st)) = false.
Proof.
  unfold fetchEmails, bind, try_catch_finally, await, modify, throw, ret.
  cbn [fst snd].
  by destruct (supabase _) as [data [err|]|e].
Qed.

(** X5. The effect that loads the list does nothing for an empty
    [entityId], so that a viewer which starts loading keeps showing the
    skeletons; for any other [entityId] the skeletons are gone once the
    fetch has ended, whatever its outcome, and the screen is the empty
    message or the list according to the emails held. *)
Theorem fetch_effect_screen (supabase : Query -> QueryOutcome)
  (entityType : EntityType) (entityId : jsstring) (st : State) :
  let st' := fst (fetch_effect supabase entityType entityId st) in
  (entityId = [] -> st' = st /\ (loading st = true -> screen entityType st' = Skeletons))
  /\ (entityId <> [] ->
      loading st' = false
      /\ screen entityType st'
         = match emails st' with
           | [] => NoEmails (Js.lit "No emails sent to this "
                             ++ entity_word entityType ++ Js.lit " yet")
           | _ :: _ => History (emails st')
           end).
Proof.
  cbv zeta. unfold fetch_effect. split.
  - intros ->. cbn [Js.truthy]. split; [done|].
    intros H. unfold screen. cbn. by rewrite H.
  - intros Hne. destruct entityId as [|c s]; [done|]. cbn [Js.truthy].
    pose proof (fetchEmails_loading supabase entityType (c :: s) st) as Hl.
    split; [done|]. unfold screen. rewrite Hl.
    by destruct (emails _).
Qed.

Lemma fetch_effect_empty_id :
  screen contact
    (fst (fetch_effect (fun _ => Resolved None None) contact []
            Samples.initial_state))
  = Skeletons.
Proof.
  destruct (fetch_effect_screen (fun _ => Resolved None None) contact []
              Samples.initial_state) as [H _].
  destruct (H eq_refl) as [_ H']. apply H'. reflexivity.
Defined.

(** X6. The channel name determines the entity: two subscriptions share a
    channel name only if they view the same entity type and id. *)
Theorem channel_name_inj (t1 t2 : EntityType) (id1 id2 : jsstring) :
  channel_name t1 id1 = channel_name t2 id2 -> t1 = t2 /\ id1 = id2.
Proof.
  unfold channel_name. intros H. apply app_inv_head in H.
  destruct t1, t2; cbn in H; try discriminate H;
    (split; [reflexivity|]); by repeat injection H as H.
Qed.

Lemma channel_name_inj_witness :
  channel_name lead (Js.lit "7") = Js.lit "email-updates-lead-7"
  /\ (lead = lead /\ Js.lit "7" = Js.lit "7").
Proof. split; [reflexivity|]. apply channel_name_inj. reflexivity. Defined.





(** X9. The list and the dialog disagree on an email whose status is
    ['bounced'] but whose [bounce_type] is null or empty: its badge and
    its card say "Delivery Failed", while the dialog shows the open
    statistics and no bounce panel. *)
Theorem bounced_without_type (getTime : jsstring -> option Z) (now : Z)
  (email : EmailHistoryItem) :
  status email = Js.lit "bounced" -> no_bounce_type email ->
  getStatusBadge getTime now email = BounceBadge (Js.lit "Delivery Failed")
  /\ getOpenCountDisplay email = BounceText (Js.lit "Delivery Failed")
  /\ bounce_panel (details email) = None
  /\ is_Some (open_stats (details email)).
Proof.
  intros Hs Hb. apply truthy_false in Hb.
  assert (Bounce.title (Bounce.getBounceExplanation (bounce_type email) None)
          = Js.lit "Delivery Failed") as Ht.
  { unfold no_bounce_type in *. apply truthy_false in Hb.
    by destruct Hb as [-> | ->]. }
  assert (highlighted email = true) as Hh.
  { unfold highlighted. by rewrite Hs. }
  split; [|split; [|split]].
  - apply getStatusBadge_bounce_iff. by rewrite Ht.
  - apply getOpenCountDisplay_bounce_iff. by rewrite Ht.
  - unfold details. cbn. by rewrite Hb.
  - unfold details. cbn. rewrite Hb. by eexists.
Qed.

Lemma bounced_without_type_witness :
  getStatusBadge Samples.epoch 1000 (Samples.email "bounced" None None)
  = BounceBadge (Js.lit "Delivery Failed")
  /\ bounce_panel (details (Samples.email "bounced" None None)) = None.
Proof.
  destruct (bounced_without_type Samples.epoch 1000
              (Samples.email "bounced" None None)) as (H1 & _ & H3 & _).
  - reflexivity.
  - by left.
  - by split.
Defined.

Ltac settle_cases :=
  intros; destruct_and?; destruct_or?;
  repeat match goal with
         | H : exists _, _ |- _ => destruct H as [? H]
         end;
  destruct_and?; simplify_eq; try done; try lia; eauto.



End EmailViewFacts.

(** ** More on the cleaned text *)

Section CleanedFacts.

Import Regex RegexSpec Bounce BounceSpec CleanedShape.

(** *** Cleaning never lengthens *)

Lemma strip_tags_from_length held s :
  (length (strip_tags_from held s)
   <= length s + match held with Some h => length h | None => 0 end)%nat.
Proof.
  revert held. induction s as [|c s IH]; intros held.
  - destruct held as [h|]; cbn [strip_tags_from length]; [|lia].
    rewrite length_rev. lia.
  - cbn [strip_tags_from]. destruct held as [h|].
    + destruct (Js.is_char ">" c).
      * specialize (IH None). cbn [length] in *. lia.
      * specialize (IH (Some (c :: h))). cbn [length] in *. lia.
    + destruct (Js.is_char "<" c).
      * specialize (IH (Some [c])). cbn [length] in *. lia.
      * specialize (IH None). cbn [length] in *. lia.
Qed.

Lemma collapse_from_length b s :
  (length (collapse_from b s) <= length s)%nat.
Proof.
  revert b. induction s as [|c s IH]; intros b; [done|].
  cbn [collapse_from]. destruct (Js.is_space c).
  - destruct b; [specialize (IH true)|specialize (IH true)];
      cbn [length]; lia.
  - specialize (IH false). cbn [length]. lia.
Qed.

Lemma trimStart_length s : (length (Js.trimStart s) <= length s)%nat.
Proof.
  induction s as [|c s IH]; [done|]. cbn [Js.trimStart].
  destruct (Js.is_space c); cbn [length]; lia.
Qed.

Lemma trim_length s : (length (Js.trim s) <= length s)%nat.
Proof.
  unfold Js.trim, Js.trimEnd. rewrite length_rev.
  etransitivity; [apply trimStart_length|]. rewrite length_rev.
  apply trimStart_length.
Qed.

(** X11. Cleaning never lengthens a reason. *)
Theorem clean_length (reason : jsstring) :
  (length (clean reason) <= length reason)%nat.
Proof.
  rewrite clean_cleaned_text. unfold cleaned_text.
  etransitivity; [apply trim_length|].
  etransitivity; [apply collapse_from_length|].
  pose proof (strip_tags_from_length None reason) as H.
  rewrite Nat.add_0_r in H. exact H.
Qed.

(** *** The shape of the cleaned text *)

Lemma space_not_angle c :
  Js.is_space c = true -> Js.is_char "<" c = false /\ Js.is_char ">" c = false.
Proof.
  unfold Js.is_space, Js.is_char, Js.chr. cbn [N_of_ascii N_of_digits].
  rewrite !orb_true_iff, !andb_true_iff, !N.eqb_eq, !N.leb_le, !N.eqb_neq.
  cbn. lia.
Qed.

Lemma no_gt_skip_while s : no_gt s <-> skip_while not_gt s = [].
Proof.
  unfold no_gt. induction s as [|c s IH]; [by split; [|constructor]|].
  cbn [skip_while]. unfold not_gt at 1. rewrite is_not_char_negb.
  destruct (Js.is_char ">" c) eqn:E; cbn [negb].
  - split; [|done]. intros H. inversion H; congruence.
  - rewrite <- IH. split; [by inversion 1|by constructor].
Qed.

Lemma no_gt_tag_free s : no_gt s -> tag_free s.
Proof.
  unfold no_gt. induction 1 as [|c s Hc Hs IH]; [done|].
  cbn [tag_free]. by split.
Qed.

Lemma skip_while_no_gt_suffix s g rest :
  skip_while not_gt s = g :: rest -> (length rest < length s)%nat.
Proof.
  intros H. pose proof (skip_while_length not_gt s) as Hl.
  rewrite H in Hl. cbn [length] in Hl. lia.
Qed.

Lemma strip_tags_tag_free n s :
  (length s < n)%nat -> tag_free (strip_tags_from None s).
Proof.
  revert s. induction n as [|n IH]; intros s Hn; [lia|].
  destruct s as [|c s]; [done|]. cbn [length] in Hn.
  cbn [strip_tags_from]. destruct (Js.is_char "<" c) eqn:E.
  - rewrite strip_tags_held.
    destruct (skip_while not_gt s) as [|g rest] eqn:Es.
    + cbn [rev app]. apply no_gt_skip_while in Es. cbn [tag_free].
      split; [done|by apply no_gt_tag_free].
    + apply skip_while_no_gt_suffix in Es. cbn [tag_free]. split.
      * intros H. discriminate H.
      * apply IH. lia.
  - cbn [tag_free]. split; [congruence|]. apply IH. lia.
Qed.

Lemma collapse_no_gt b s : no_gt s -> no_gt (collapse_from b s).
Proof.
  unfold no_gt. intros H. revert b.
  induction H as [|c s Hc Hs IH]; intros b; [constructor|].
  cbn [collapse_from]. destruct (Js.is_space c).
  - destruct b; [apply IH|]. constructor; [done|apply IH].
  - constructor; [done|apply IH].
Qed.

Lemma collapse_tag_free b s : tag_free s -> tag_free (collapse_from b s).
Proof.
  revert b. induction s as [|c s IH]; intros b; [done|].
  cbn [tag_free collapse_from]. intros [Hc Hs].
  destruct (Js.is_space c) eqn:E.
  - destruct b; [by apply IH|]. cbn [tag_free]. split; [|by apply IH].
    intros H. discriminate H.
  - cbn [tag_free]. split; [|by apply IH].
    intros H. by apply collapse_no_gt, Hc.
Qed.

Lemma trimStart_suffix s :
  exists sp, s = sp ++ Js.trimStart s /\ Forall (fun c => Js.is_space c = true) sp.
Proof.
  induction s as [|c s (sp & Hs & Hsp)]; [by exists []|].
  cbn [Js.trimStart]. destruct (Js.is_space c) eqn:E.
  - exists (c :: sp). split; [cbn; by rewrite <- Hs|by constructor].
  - by exists [].
Qed.

Lemma trimEnd_prefix s :
  exists sp, s = Js.trimEnd s ++ sp /\ Forall (fun c => Js.is_space c = true) sp.
Proof.
  unfold Js.trimEnd. destruct (trimStart_suffix (rev s)) as (sp & Hs & Hsp).
  exists (rev sp). split; [|by apply Forall_rev].
  rewrite <- rev_app_distr, <- Hs. by rewrite rev_involutive.
Qed.

Lemma tag_free_suffix a b : tag_free (a ++ b) -> tag_free b.
Proof. induction a as [|c a IH]; [done|]. cbn. intros [_ H]. by apply IH. Qed.

Lemma tag_free_prefix a b : tag_free (a ++ b) -> tag_free a.
Proof.
  induction a as [|c a IH]; [done|]. cbn [app tag_free]. intros [Hc H].
  split; [|by apply IH]. intros Hlt. specialize (Hc Hlt).
  unfold no_gt in *. by apply Forall_app in Hc as [? _].
Qed.

Lemma trim_tag_free s : tag_free s -> tag_free (Js.trim s).
Proof.
  intros H. unfold Js.trim.
  destruct (trimStart_suffix s) as (sp & Hs & _).
  rewrite Hs in H. apply tag_free_suffix in H.
  destruct (trimEnd_prefix (Js.trimStart s)) as (sp' & Hs' & _).
  rewrite Hs' in H. by apply tag_free_prefix in H.
Qed.

Lemma collapse_single_spaced b s : single_spaced b (collapse_from b s).
Proof.
  revert b. induction s as [|c s IH]; intros b; [done|].
  cbn [collapse_from]. destruct (Js.is_space c) eqn:E.
  - destruct b; [apply IH|]. cbn [single_spaced].
    change (Js.is_space (Js.chr " ")) with true. cbv iota.
    split; [done|]. split; [done|apply IH].
  - cbn [single_spaced]. rewrite E. apply IH.
Qed.

Lemma single_spaced_trimStart b b' s :
  single_spaced b s -> single_spaced b' (Js.trimStart s).
Proof.
  revert b. induction s as [|c s IH]; intros b; [done|].
  cbn [single_spaced Js.trimStart]. destruct (Js.is_space c) eqn:E.
  - intros (_ & _ & H). by apply (IH true).
  - intros H. cbn [single_spaced]. by rewrite E.
Qed.

Lemma single_spaced_prefix b a r : single_spaced b (a ++ r) -> single_spaced b a.
Proof.
  revert b. induction a as [|c a IH]; intros b; [done|].
  cbn [app single_spaced]. destruct (Js.is_space c).
  - intros (? & ? & H). split; [done|]. split; [done|by apply IH].
  - apply IH.
Qed.

Lemma trim_single_spaced s : single_spaced false s -> single_spaced false (Js.trim s).
Proof.
  intros H. unfold Js.trim.
  apply (single_spaced_trimStart _ false) in H.
  destruct (trimEnd_prefix (Js.trimStart s)) as (sp & Hs & _).
  rewrite Hs in H. by apply single_spaced_prefix in H.
Qed.

Lemma trimStart_head s c :
  head (Js.trimStart s) = Some c -> Js.is_space c = false.
Proof.
  induction s as [|d s IH]; [done|]. cbn [Js.trimStart].
  destruct (Js.is_space d) eqn:E; [done|]. by intros [= <-].
Qed.

Lemma head_rev_last {A} (l : list A) : head (rev l) = last l.
Proof.
  induction l as [|x l IH]; [done|]. cbn [rev]. rewrite last_cons, <- IH.
  by destruct (rev l).
Qed.

Lemma trimEnd_last s c : last (Js.trimEnd s) = Some c -> Js.is_space c = false.
Proof.
  unfold Js.trimEnd. rewrite <- head_rev_last, rev_involutive.
  apply trimStart_head.
Qed.

Lemma trim_trimmed s : trimmed (Js.trim s).
Proof.
  split; intros c Hc.
  - unfold Js.trim in Hc.
    destruct (trimEnd_prefix (Js.trimStart s)) as (sp & Hs & _).
    apply (trimStart_head s c). rewrite Hs.
    destruct (Js.trimEnd (Js.trimStart s)); [done|exact Hc].
  - by apply trimEnd_last in Hc.
Qed.

Lemma clean_single_spaced reason : single_spaced false (clean reason).
Proof.
  rewrite clean_cleaned_text. unfold cleaned_text.
  apply trim_single_spaced, collapse_single_spaced.
Qed.

Lemma clean_trimmed reason : trimmed (clean reason).
Proof. rewrite clean_cleaned_text. apply trim_trimmed. Qed.

Lemma clean_tag_free reason : tag_free (clean reason).
Proof.
  rewrite clean_cleaned_text. unfold cleaned_text.
  apply trim_tag_free, collapse_tag_free.
  apply (strip_tags_tag_free (S (length reason))). lia.
Qed.

(** X12. The cleaned text is in normal form: its only white space is the
    space character, never two in a row and neither first nor last, and
    it holds no tag (no [<] with a [>] after it). *)
Theorem clean_normal_form (reason : jsstring) :
  Forall plain (clean reason)
  /\ single_spaced false (clean reason)
  /\ trimmed (clean reason)
  /\ tag_free (clean reason).
Proof.
  split; [apply clean_plain|].
  split; [apply clean_single_spaced|].
  split; [apply clean_trimmed|apply clean_tag_free].
Qed.

(** *** Cleaning twice *)

Lemma strip_tags_fixed s : tag_free s -> strip_tags_from None s = s.
Proof.
  induction s as [|c s IH]; [done|]. cbn [tag_free strip_tags_from].
  intros [Hc Hs]. destruct (Js.is_char "<" c) eqn:E.
  - rewrite strip_tags_held.
    specialize (Hc eq_refl). apply no_gt_skip_while in Hc. by rewrite Hc.
  - by rewrite IH.
Qed.

Lemma collapse_fixed b s : single_spaced b s -> collapse_from b s = s.
Proof.
  revert b. induction s as [|c s IH]; intros b; [done|].
  cbn [single_spaced collapse_from]. destruct (Js.is_space c).
  - intros (-> & -> & H). by rewrite IH.
  - intros H. by rewrite IH.
Qed.

Lemma trimStart_fixed s :
  (forall c, head s = Some c -> Js.is_space c = false) -> Js.trimStart s = s.
Proof.
  destruct s as [|c s]; [done|]. intros H. cbn [Js.trimStart].
  by rewrite (H c eq_refl).
Qed.

Lemma trim_fixed s : trimmed s -> Js.trim s = s.
Proof.
  intros [Hh Hl]. unfold Js.trim. rewrite (trimStart_fixed s Hh).
  unfold Js.trimEnd. rewrite trimStart_fixed; [apply rev_involutive|].
  intros c Hc. rewrite head_rev_last in Hc. by apply Hl.
Qed.

(** X13. Cleaning is idempotent, and [cleanBounceReason] gives the same
    result for a reason and for its cleaned text. *)
Theorem clean_idempotent (reason : jsstring) :
  clean (clean reason) = clean reason
  /\ cleanBounceReason (Some (clean reason)) = cleanBounceReason (Some reason).
Proof.
  assert (clean (clean reason) = clean reason) as Hidem.
  { pose proof (clean_single_spaced reason) as Hs.
    pose proof (clean_trimmed reason) as Ht.
    pose proof (clean_tag_free reason) as Hf.
    rewrite (clean_cleaned_text (clean reason)). unfold cleaned_text, strip_tags.
    rewrite strip_tags_fixed by done. unfold collapse_whitespace.
    rewrite collapse_fixed by done. by apply trim_fixed. }
  split; [exact Hidem|].
  unfold cleanBounceReason.
  destruct reason as [|c text].
  { by vm_compute. }
  change (default [] (Some ?x)) with x.
  rewrite Hidem.
  destruct (clean (c :: text)) as [|d cleaned] eqn:E; [by vm_compute|].
  reflexivity.
Qed.

(** *** The two parts of the result *)

Lemma match_patterns_Some ps cleaned r :
  match_patterns ps cleaned = Some r ->
  r = {| summary :=
           Js.lit "The recipient's email address was not found or is invalid.";
         technical := Some cleaned |}.
Proof.
  induction ps as [|p ps IH]; [done|]. cbn [match_patterns].
  destruct (test p cleaned); [by intros [= <-]|exact IH].
Qed.

Lemma cleanBounceReason_cleaned reason :
  Js.truthy reason = true ->
  forall cleaned, cleaned = clean (default [] reason) ->
  cleanBounceReason reason
  = match match_patterns patterns cleaned with
    | Some r => r
    | None =>
        if test re_smtp cleaned || test re_error_code cleaned then
          {| summary := Js.lit "The email server rejected the message.";
             technical := Some cleaned |}
        else
          let firstSentence := split_head re_sentence_end cleaned in
          if Js.truthy firstSentence
             && (10 <? length (default [] firstSentence))%nat
             && (length (default [] firstSentence) <? 200)%nat
          then
            {| summary := default [] firstSentence ++ Js.lit ".";
               technical :=
                 if negb (Js.str_eqb cleaned
                            (default [] firstSentence ++ Js.lit "."))
                 then Some cleaned else None |}
          else {| summary := cleaned; technical := None |}
    end.
Proof. intros H cleaned ->. unfold cleanBounceReason. by rewrite H. Qed.

Lemma clean_falsy reason :
  Js.truthy reason = false -> clean (default [] reason) = [].
Proof.
  intros H. apply truthy_false in H as [->| ->]; by vm_compute.
Qed.

Lemma technical_cleaned reason t :
  technical (cleanBounceReason reason) = Some t ->
  t = clean (default [] reason)
  /\ t <> []
  /\ t <> summary (cleanBounceReason reason).
Proof.
  destruct (Js.truthy reason) eqn:Ht.
  2:{ unfold cleanBounceReason. by rewrite Ht. }
  rewrite (cleanBounceReason_cleaned reason Ht _ eq_refl).
  generalize (clean (default [] reason)). intros cleaned.
  destruct (match_patterns patterns cleaned) as [r|] eqn:Ep.
  { rewrite (match_patterns_Some _ _ _ Ep). cbn [technical summary].
    intros [= <-]. split; [done|].
    split; intros ->; vm_compute in Ep; discriminate Ep. }
  destruct (test re_smtp cleaned || test re_error_code cleaned) eqn:Es.
  { cbn [technical summary]. intros [= <-]. split; [done|].
    split; intros ->; vm_compute in Es; discriminate Es. }
  cbv zeta.
  destruct (Js.truthy (split_head re_sentence_end cleaned)
            && (10 <? length (default [] (split_head re_sentence_end cleaned)))%nat
            && (length (default [] (split_head re_sentence_end cleaned)) <? 200)%nat)
    eqn:Ef; cbn [technical summary]; [|done].
  destruct (Js.str_eqb cleaned _) eqn:Ec; cbn [negb]; [done|].
  intros [= <-]. split; [done|]. apply str_eqb_false in Ec.
  split; [|exact Ec]. intros ->. vm_compute in Ef. discriminate Ef.
Qed.

(** X14. The technical part, when there is one, is the cleaned text, is
    not empty and differs from the summary; the summary is empty exactly
    when nothing is left of the reason after cleaning. *)
Theorem cleanBounceReason_parts (reason : option jsstring) :
  (forall t, technical (cleanBounceReason reason) = Some t ->
     t = clean (default [] reason)
     /\ t <> []
     /\ t <> summary (cleanBounceReason reason))
  /\ (summary (cleanBounceReason reason) = []
      <-> clean (default [] reason) = []).
Proof.
  split; [apply technical_cleaned|].
  destruct (Js.truthy reason) eqn:Ht.
  2:{ rewrite (clean_falsy _ Ht). unfold cleanBounceReason. by rewrite Ht. }
  rewrite (cleanBounceReason_cleaned reason Ht _ eq_refl).
  generalize (clean (default [] reason)). intros cleaned.
  destruct (match_patterns patterns cleaned) as [r|] eqn:Ep.
  { rewrite (match_patterns_Some _ _ _ Ep). cbn [summary].
    split; [intros H; vm_compute in H; discriminate H|].
    intros ->. vm_compute in Ep. discriminate Ep. }
  destruct (test re_smtp cleaned || test re_error_code cleaned) eqn:Es.
  { cbn [summary]. split; [intros H; vm_compute in H; discriminate H|].
    intros ->. vm_compute in Es. discriminate Es. }
  cbv zeta.
  destruct (Js.truthy (split_head re_sentence_end cleaned)
            && (10 <? length (default [] (split_head re_sentence_end cleaned)))%nat
            && (length (default [] (split_head re_sentence_end cleaned)) <? 200)%nat)
    eqn:Ef; cbn [summary]; [|done].
  split.
  - intros H. apply app_eq_nil in H as [_ H]. vm_compute in H. discriminate H.
  - intros ->. vm_compute in Ef. discriminate Ef.
Qed.

Lemma cleanBounceReason_parts_witness :
  Js.lit "550 5.1.1 rejected" = clean (default [] (Some (Js.lit "<b>550</b> 5.1.1  rejected")))
  /\ Js.lit "550 5.1.1 rejected" <> []
  /\ Js.lit "550 5.1.1 rejected"
     <> summary (cleanBounceReason (Some (Js.lit "<b>550</b> 5.1.1  rejected"))).
Proof.
  apply (proj1 (cleanBounceReason_parts
                  (Some (Js.lit "<b>550</b> 5.1.1  rejected")))).
  vm_compute. reflexivity.
Defined.

End CleanedFacts.

(** ** The bounce panel of the dialog *)

Section BouncePanelFacts.

Import Bounce Email EmailView.

(** X15. The bounce panel is there exactly for a truthy [bounce_type]; its
    technical details are those of [cleanBounceReason] for the bounce
    reason (testing them for truthiness hides none), so they are the
    cleaned reason, and the panel's text is that of the status badge. *)
Theorem bounce_panel_contents (email : EmailHistoryItem) :
  (is_Some (bounce_panel (details email))
   <-> Js.truthy (bounce_type email) = true)
  /\ (forall p, bounce_panel (details email) = Some p ->
        technical_details p = technical (cleanBounceReason (bounce_reason email))
        /\ (forall t, technical_details p = Some t ->
              t = clean (default [] (bounce_reason email)) /\ t <> [])
        /\ getOpenCountDisplay email = BounceText (Bounce.title (info p))).
Proof.
  unfold details. cbn [bounce_panel].
  destruct (Js.truthy (bounce_type email)) eqn:Ht.
  2:{ split; [|done]. split; [by intros [? ?]|done]. }
  split; [by split; [|eexists]|].
  intros p [= <-]. cbn [technical_details info].
  pose proof (technical_cleaned (bounce_reason email)) as Hp.
  assert (when_truthy (technical (cleanBounceReason (bounce_reason email)))
          = technical (cleanBounceReason (bounce_reason email))) as Hw.
  { unfold when_truthy.
    destruct (technical (cleanBounceReason (bounce_reason email))) as [t|] eqn:E;
      [|done].
    destruct (Hp t eq_refl) as (_ & Hne & _).
    destruct t; [done|reflexivity]. }
  rewrite Hw. split; [done|]. split.
  - intros t Htech. destruct (Hp t Htech) as (? & ? & _). by split.
  - unfold getOpenCountDisplay. rewrite Ht, orb_true_r.
    reflexivity.
Qed.

Lemma bounce_panel_contents_witness :
  getOpenCountDisplay (Samples.email "bounced" (Some (Js.lit "hard")) None)
  = BounceText (Js.lit "Delivery Failed").
Proof.
  destruct (bounce_panel_contents
              (Samples.email "bounced" (Some (Js.lit "hard")) None))
    as [_ H].
  destruct (H {| info := getBounceExplanation (Some (Js.lit "hard")) None;
                 technical_details := None |} eq_refl) as (_ & _ & H3).
  exact H3.
Defined.

End BouncePanelFacts.

(** ** More on the dashboard dialog *)

Section DashboardViewFacts.

Import Dashboard DashboardSpec DashboardView.

#[local] Arguments DEFAULT_WIDGETS : simpl never.
#[local] Arguments find_key : simpl never.

(** *** Resizing *)

Lemma changeSize_absent k s ws :
  ~ In k (List.map key ws) -> changeSize k s ws = ws.
Proof.
  induction ws as [|w ws IH]; [done|]. cbn [List.map In changeSize].
  intros H. destruct (Js.str_eqb (key w) k) eqn:E.
  - apply str_eqb_true in E. tauto.
  - f_equal. apply IH. tauto.
Qed.

(** X16. [changeSize k s] keeps the length and the order; element by
    element it keeps key, label, icon and visibility, gives the size [s]
    to the widgets with key [k] and leaves the others as they are.  The
    last of two changes of the same key wins, and a key that is not
    listed changes nothing. *)
Theorem changeSize_frame (k : jsstring) (s : WidgetSize)
  (ws : list DashboardWidget) :
  Forall2 (resized k s) ws (changeSize k s ws)
  /\ (forall s', changeSize k s' (changeSize k s ws) = changeSize k s' ws)
  /\ (~ In k (List.map key ws) -> changeSize k s ws = ws).
Proof.
  split; [|split; [|apply changeSize_absent]].
  - induction ws as [|w ws IH]; [constructor|].
    cbn [changeSize List.map]. constructor; [|exact IH].
    unfold resized. destruct (Js.str_eqb (key w) k) eqn:E.
    + apply str_eqb_true in E. cbn [with_size key label icon visible size].
      repeat split; done.
    + apply str_eqb_false in E. repeat split; done.
  - intros s'. unfold changeSize. rewrite List.map_map.
    apply List.map_ext. intros w.
    destruct (Js.str_eqb (key w) k) eqn:E.
    + cbn [with_size key]. by rewrite E.
    + by rewrite E.
Qed.

Lemma changeSize_absent_witness :
  changeSize (Js.lit "retired") xl Samples.three = Samples.three.
Proof.
  apply (changeSize_frame (Js.lit "retired") xl Samples.three).
  vm_compute. intros H. repeat destruct H as [H|H]; try discriminate H.
  exact H.
Defined.

(** X17. Toggling and resizing do not interfere: a toggle commutes with
    a change of size, also of the same key; two toggles commute; two
    changes of size commute when their keys differ. *)
Theorem toggle_resize_commute (k1 k2 : jsstring) (s1 s2 : WidgetSize)
  (ws : list DashboardWidget) :
  toggleWidget k1 (changeSize k2 s2 ws) = changeSize k2 s2 (toggleWidget k1 ws)
  /\ toggleWidget k1 (toggleWidget k2 ws) = toggleWidget k2 (toggleWidget k1 ws)
  /\ (k1 <> k2 ->
      changeSize k1 s1 (changeSize k2 s2 ws)
      = changeSize k2 s2 (changeSize k1 s1 ws)).
Proof.
  unfold toggleWidget, changeSize. rewrite !List.map_map.
  split; [|split; [|intros Hk]]; apply List.map_ext; intros w;
    destruct (Js.str_eqb (key w) k1) eqn:E1;
    destruct (Js.str_eqb (key w) k2) eqn:E2;
    cbn [with_size with_visible key visible size];
    rewrite ?E1, ?E2; try reflexivity.
  apply str_eqb_true in E1, E2. congruence.
Qed.

Lemma toggle_resize_commute_witness :
  changeSize (Js.lit "leads") xl (changeSize (Js.lit "deals") xs Samples.three)
  = changeSize (Js.lit "deals") xs (changeSize (Js.lit "leads") xl Samples.three).
Proof.
  apply (toggle_resize_commute (Js.lit "leads") (Js.lit "deals") xl xs
           Samples.three).
  vm_compute. discriminate.
Defined.

(** *** Dragging back and dragging nowhere *)

Lemma remove_insert_at {A} (l : list A) i x :
  (i <= length l)%nat -> remove_at i (insert_at i x l) = l.
Proof.
  intros Hi. unfold remove_at, insert_at.
  rewrite take_app_length' by (rewrite length_take; lia).
  rewrite (cons_middle x), app_assoc.
  rewrite drop_app_length' by (rewrite length_app, length_take; cbn; lia).
  apply take_drop.
Qed.

Lemma nth_error_lookup {A} (l : list A) i : nth_error l i = l !! i.
Proof. revert i. induction l as [|y l IH]; intros [|i]; cbn; auto. Qed.

Lemma insert_remove_at {A} (l : list A) i x :
  nth_error l i = Some x -> insert_at i x (remove_at i l) = l.
Proof.
  intros Hx. assert (i < length l)%nat as Hi by (apply nth_error_Some; congruence).
  unfold remove_at, insert_at.
  rewrite take_app_length' by (rewrite length_take; lia).
  rewrite drop_app_length' by (rewrite length_take; lia).
  apply take_drop_middle. by rewrite <- nth_error_lookup.
Qed.

Lemma move_same {A} (l : list A) i : move i i l = l.
Proof.
  unfold move. destruct (nth_error l i) as [x|] eqn:E; [|done].
  by apply insert_remove_at.
Qed.

Lemma move_back {A} (l : list A) src dst :
  (src < length l)%nat -> (dst < length l)%nat ->
  move dst src (move src dst l) = l.
Proof.
  intros Hs Hd. unfold move at 2.
  destruct (nth_error l src) as [x|] eqn:E.
  2:{ apply nth_error_None in E. lia. }
  unfold move.
  rewrite insert_at_lookup by (rewrite remove_at_length; lia).
  rewrite remove_insert_at by (rewrite remove_at_length; lia).
  by apply insert_remove_at.
Qed.

(** X18. A drag can be undone: after a listed widget was dropped on a
    position of the list, dragging it from there back to where it was
    restores the list; dropping a widget where it was picked up changes
    nothing. *)
Theorem handleDragEnd_undo (ws : list DashboardWidget) (result : DropResult)
  (dest : DraggableLocation) :
  destination result = Some dest ->
  picks_listed result ws ->
  (0 <= index dest < Z.of_nat (length ws))%Z ->
  exists ws',
    handleDragEnd ws result = List.map Some ws'
    /\ length ws' = length ws
    /\ handleDragEnd ws'
         {| source := dest; destination := Some (source result) |}
       = List.map Some ws
    /\ (index dest = index (source result) -> ws' = ws).
Proof.
  intros Hd [Hs1 Hs2] [Hd1 Hd2].
  set (src := Z.to_nat (index (source result))).
  set (dst := Z.to_nat (index dest)).
  assert (src < length ws)%nat as Hsrc by (subst src; lia).
  assert (dst < length ws)%nat as Hdst by (subst dst; lia).
  destruct (nth_error ws src) as [x|] eqn:Hx.
  2:{ apply nth_error_None in Hx. lia. }
  exists (move src dst ws).
  assert (move src dst ws = insert_at dst x (remove_at src ws)) as Hm
    by (unfold move; by rewrite Hx).
  assert (length (move src dst ws) = length ws) as Hlen
    by (apply Permutation_length, move_perm).
  split; [|split; [exact Hlen|split]].
  - rewrite Hm. by apply handleDragEnd_move.
  - assert (nth_error (move src dst ws) dst = Some x) as Hx'.
    { rewrite Hm. apply insert_at_lookup. rewrite remove_at_length; lia. }
    rewrite (handleDragEnd_move _ _ (source result) x); cbn [source destination];
      [|done|exact Hx'|done|done].
    f_equal. fold src dst.
    pose proof (move_back ws src dst Hsrc Hdst) as Hb.
    unfold move at 1 in Hb. by rewrite Hx' in Hb.
  - intros Hi. replace dst with src by (subst src dst; by rewrite Hi).
    apply move_same.
Qed.

Lemma handleDragEnd_undo_witness :
  exists ws',
    handleDragEnd Samples.three Samples.first_to_last = List.map Some ws'
    /\ length ws' = length Samples.three
    /\ handleDragEnd ws'
         {| source := {| index := 2 |};
            destination := Some {| index := 0 |} |}
       = List.map Some Samples.three
    /\ (2%Z = 0%Z -> ws' = Samples.three).
Proof.
  apply (handleDragEnd_undo Samples.three Samples.first_to_last
           {| index := 2 |}).
  - reflexivity.
  - unfold picks_listed. cbn. lia.
  - cbn. lia.
Defined.

Lemma splice_past_end {A} (l : list A) (i n : Z) :
  (Z.of_nat (length l) <= i)%Z -> Array.splice l i n [] = ([], l).
Proof.
  intros Hi. unfold Array.splice.
  destruct (i <? 0)%Z eqn:E; [lia|].
  replace (Z.min i (Z.of_nat (length l))) with (Z.of_nat (length l)) by lia.
  replace (Z.min (Z.max n 0) (Z.of_nat (length l) - Z.of_nat (length l)))
    with 0%Z by lia.
  rewrite Nat2Z.id. change (Z.to_nat 0) with 0%nat.
  rewrite Nat.add_0_r, skipn_all, firstn_all.
  cbn [firstn app]. by rewrite app_nil_r.
Qed.



(** *** What the initialization effect reads *)

Lemma in_catalog_find_key k :
  in_catalog k = false -> find_key DEFAULT_WIDGETS k = None.
Proof.
  intros H. apply find_key_None. intros Hin.
  apply bool_decide_eq_false in H. apply H. by apply list_elem_of_In.
Qed.

Lemma omap_find_key_filter order :
  omap (find_key DEFAULT_WIDGETS) (List.filter in_catalog order)
  = omap (find_key DEFAULT_WIDGETS) order.
Proof.
  induction order as [|k order IH]; [done|]. cbn [List.filter omap list_omap].
  destruct (in_catalog k) eqn:E.
  - cbn [omap list_omap]. by rewrite IH.
  - by rewrite (in_catalog_find_key k E).
Qed.

Lemma in_catalog_key w : In w DEFAULT_WIDGETS -> in_catalog (key w) = true.
Proof.
  intros H. apply bool_decide_eq_true, list_elem_of_In.
  unfold catalog_keys. by apply in_map.
Qed.

Lemma selection_filter order :
  selection (List.filter in_catalog order) = selection order.
Proof.
  unfold selection. rewrite omap_find_key_filter. f_equal.
  apply List.filter_ext_in. intros w Hw. f_equal.
  unfold Array.includes. apply bool_decide_ext.
  rewrite !list_elem_of_In, List.filter_In.
  pose proof (in_catalog_key w Hw). tauto.
Qed.

(** X20. After the initialization effect every widget is visible exactly
    when [visibleWidgets] includes its key, and has the size saved for
    its key in [widgetSizes], or else the size of the catalog; its key,
    label and icon are those of the catalog.  Keys of [widgetOrder] that
    the catalog does not have are ignored. *)
Theorem initialize_settings (props : Props) :
  Forall (fun w =>
            visible w = Array.includes (visibleWidgets props) (key w)
            /\ exists d,
                 find_key DEFAULT_WIDGETS (key w) = Some d
                 /\ identity w = identity d
                 /\ catalog_size (key w) = Some (size d)
                 /\ size w = default (size d) (widgetSizes props !! key w))
         (initialize props)
  /\ initialize props
     = initialize {| visibleWidgets := visibleWidgets props;
                     widgetOrder := List.filter in_catalog (widgetOrder props);
                     widgetSizes := widgetSizes props |}.
Proof.
  split.
  - rewrite initialize_selection. apply List.Forall_forall. intros w Hw.
    apply in_map_iff in Hw as (d & <- & Hd).
    apply selection_catalog in Hd. split; [reflexivity|].
    exists d. change (key (with_settings props d)) with (key d).
    unfold catalog_size. rewrite (find_key_catalog d Hd).
    repeat split; reflexivity.
  - rewrite !initialize_selection. cbn [widgetOrder].
    rewrite selection_filter. reflexivity.
Qed.

(** *** Saving and opening again *)

Lemma filter_none {A} (f : A -> bool) l :
  (forall x, In x l -> f x = false) -> List.filter f l = [].
Proof.
  induction l as [|x l IH]; [done|]. intros H. cbn [List.filter].
  rewrite (H x) by (by left). apply IH. intros y Hy. apply H. by right.
Qed.

Lemma omap_find_key_restore (f : DashboardWidget -> DashboardWidget) l :
  (forall w, In w l ->
     exists d, find_key DEFAULT_WIDGETS (key w) = Some d /\ f d = w) ->
  List.map f (omap (find_key DEFAULT_WIDGETS) (List.map key l)) = l.
Proof.
  induction l as [|w l IH]; [done|]. intros H.
  cbn [List.map omap list_omap].
  destruct (H w) as (d & Hd & Hf); [by left|]. rewrite Hd.
  cbn [List.map]. rewrite Hf. f_equal. apply IH.
  intros w' Hw'. apply H. by right.
Qed.

Lemma exactly_catalog_NoDup ws :
  exactly_catalog ws -> List.NoDup (List.map key ws).
Proof.
  intros H. apply exactly_catalog_keys in H.
  exact (Permutation.Permutation_NoDup (Permutation_sym H) catalog_keys_NoDup).
Qed.

Lemma visible_keys_includes ws w :
  key_determines ws -> In w ws ->
  Array.includes (List.map key (List.filter visible ws)) (key w) = visible w.
Proof.
  intros Hk Hw. unfold Array.includes.
  destruct (visible w) eqn:E.
  - apply bool_decide_eq_true, list_elem_of_In, in_map, List.filter_In.
    by split.
  - apply bool_decide_eq_false. rewrite list_elem_of_In.
    intros Hin. apply in_map_iff in Hin as (w' & Hkey & Hin).
    apply List.filter_In in Hin as [Hin Hv].
    assert (w' = w) as -> by (by apply Hk). congruence.
Qed.

(** X21. Saving and opening again gives back the dialog as it was: when
    the list holds exactly the widgets of the catalog, the
    initialization effect run on what [handleSave] handed to [onSave]
    yields the same list, with the same order, visibility and sizes.
    This holds in every state reached from props without repeats. *)
Theorem initialize_handleSave (ws : list DashboardWidget) :
  (exactly_catalog ws -> initialize (saved_props (handleSave ws)) = ws)
  /\ (reachable order_without_repeats ws ->
      initialize (saved_props (handleSave ws)) = ws).
Proof.
  assert (exactly_catalog ws -> initialize (saved_props (handleSave ws)) = ws)
    as Hmain.
  { intros Hc.
    pose proof (exactly_catalog_NoDup ws Hc) as Hnd.
    pose proof (key_determines_NoDup ws Hnd) as Hkd.
    rewrite initialize_selection.
    change (widgetOrder (saved_props (handleSave ws))) with (List.map key ws).
    unfold selection. rewrite filter_none.
    2:{ intros d Hd. apply negb_false_iff, bool_decide_eq_true, list_elem_of_In.
        apply (Permutation_in _ (Permutation_sym (exactly_catalog_keys ws Hc))).
        unfold catalog_keys. by apply in_map. }
    rewrite app_nil_r. apply omap_find_key_restore. intros w Hw.
    assert (In (identity w) (List.map identity DEFAULT_WIDGETS)) as Hin
      by (apply (Permutation_in _ Hc); by apply in_map).
    apply in_map_iff in Hin as (d & Hid & Hd).
    unfold identity in Hid. injection Hid as Hkey Hlabel Hicon.
    exists d. split; [rewrite <- Hkey; by apply find_key_catalog|].
    unfold with_settings, configured.
    change (visibleWidgets (saved_props (handleSave ws)))
      with (List.map key (List.filter visible ws)).
    change (widgetSizes (saved_props (handleSave ws)))
      with (fold_left (fun sizes w => <[key w := size w]> sizes) ws
              (∅ : gmap jsstring WidgetSize)).
    rewrite Hkey, (visible_keys_includes ws w Hkd Hw),
      (sizes_key_determines ws w Hkd Hw), Hlabel, Hicon.
    by destruct w. }
  split; [exact Hmain|].
  intros Hr. by apply Hmain, reachable_exactly_catalog.
Qed.

Lemma initialize_handleSave_witness :
  exactly_catalog handleReset
  /\ initialize (saved_props (handleSave handleReset)) = handleReset.
Proof.
  assert (exactly_catalog handleReset) as H.
  { unfold exactly_catalog. by rewrite handleReset_identity. }
  split; [exact H|].
  apply (proj1 (initialize_handleSave handleReset)). exact H.
Defined.

(** *** Saving after an edit *)

Lemma sizes_map (f : DashboardWidget -> DashboardWidget)
  (ws : list DashboardWidget) (m : gmap jsstring WidgetSize) :
  (forall w, key (f w) = key w) -> (forall w, size (f w) = size w) ->
  fold_left (fun sizes w => <[key w := size w]> sizes) (List.map f ws) m
  = fold_left (fun sizes w => <[key w := size w]> sizes) ws m.
Proof.
  intros Hk Hs. revert m. induction ws as [|w ws IH]; intros m; [done|].
  cbn [List.map fold_left]. by rewrite Hk, Hs, IH.
Qed.

Lemma visible_keys_map (f : DashboardWidget -> DashboardWidget) ws :
  (forall w, key (f w) = key w) -> (forall w, visible (f w) = visible w) ->
  List.map key (List.filter visible (List.map f ws))
  = List.map key (List.filter visible ws).
Proof.
  intros Hk Hv. induction ws as [|w ws IH]; [done|].
  cbn [List.map List.filter]. rewrite Hv.
  destruct (visible w); cbn [List.map]; by rewrite ?Hk, IH.
Qed.

Lemma last_with_key_map (f : DashboardWidget -> DashboardWidget) k ws :
  (forall w, key (f w) = key w) ->
  last_with_key k (List.map f ws) = f <$> last_with_key k ws.
Proof.
  intros Hk. induction ws as [|w ws IH]; [done|].
  cbn [List.map last_with_key]. rewrite IH, Hk.
  destruct (last_with_key k ws); [done|].
  by destruct (Js.str_eqb (key w) k).
Qed.

(** X22. What an edit changes in what is saved.  A toggle of [k] leaves
    the order and the sizes as they are and changes the visible keys at
    most at [k]; a change of size of [k] leaves the visible keys and the
    order as they are and, when [k] is listed, sets the saved size of
    [k] and no other. *)
Theorem handleSave_after_edit (k : jsstring) (s : WidgetSize)
  (ws : list DashboardWidget) :
  (snd (fst (handleSave (toggleWidget k ws))) = snd (fst (handleSave ws))
   /\ snd (handleSave (toggleWidget k ws)) = snd (handleSave ws)
   /\ forall k', k' <> k ->
        Array.includes (fst (fst (handleSave (toggleWidget k ws)))) k'
        = Array.includes (fst (fst (handleSave ws))) k')
  /\ (fst (handleSave (changeSize k s ws)) = fst (handleSave ws)
      /\ snd (handleSave (changeSize k s ws))
         = if Array.includes (List.map key ws) k
           then <[k := s]> (snd (handleSave ws))
           else snd (handleSave ws)).
Proof.
  set (t := fun w => if Js.str_eqb (key w) k
                     then with_visible w (negb (visible w)) else w).
  set (c := fun w => if Js.str_eqb (key w) k then with_size w s else w).
  assert (forall w, key (t w) = key w) as Htk
    by (intros w; unfold t; by destruct (Js.str_eqb (key w) k)).
  assert (forall w, size (t w) = size w) as Hts
    by (intros w; unfold t; by destruct (Js.str_eqb (key w) k)).
  assert (forall w, key (c w) = key w) as Hck
    by (intros w; unfold c; by destruct (Js.str_eqb (key w) k)).
  assert (forall w, visible (c w) = visible w) as Hcv
    by (intros w; unfold c; by destruct (Js.str_eqb (key w) k)).
  change (toggleWidget k ws) with (List.map t ws).
  change (changeSize k s ws) with (List.map c ws).
  unfold handleSave. cbn [fst snd]. split; [split; [|split]|split].
  - rewrite List.map_map. by apply List.map_ext.
  - by apply sizes_map.
  - intros k' Hk'. unfold Array.includes. apply bool_decide_ext.
    rewrite !list_elem_of_In, !in_map_iff. split.
    + intros (w' & Hkey & Hin). apply List.filter_In in Hin as [Hin Hv].
      apply in_map_iff in Hin as (w & <- & Hin).
      rewrite Htk in Hkey. exists w. split; [done|].
      apply List.filter_In. split; [done|].
      unfold t in Hv. destruct (Js.str_eqb (key w) k) eqn:E; [|done].
      apply str_eqb_true in E. congruence.
    + intros (w & Hkey & Hin). apply List.filter_In in Hin as [Hin Hv].
      exists w. split; [done|]. apply List.filter_In.
      assert (t w = w) as Ht.
      { unfold t. destruct (Js.str_eqb (key w) k) eqn:E; [|done].
        apply str_eqb_true in E. congruence. }
      split; [|done]. rewrite <- Ht. by apply in_map.
  - f_equal; [by apply visible_keys_map|].
    rewrite List.map_map. by apply List.map_ext.
  - unfold Array.includes. case_bool_decide as Hin.
    + apply map_eq. intros k'.
      rewrite sizes_lookup, last_with_key_map by done.
      destruct (decide (k' = k)) as [->|Hne].
      * rewrite lookup_insert_eq.
        destruct (last_with_key k ws) as [w|] eqn:E.
        -- apply last_with_key_In in E as [_ E]. cbn [fmap option_fmap option_map].
           unfold c. apply str_eqb_true in E. by rewrite E.
        -- apply last_with_key_None in E. by apply list_elem_of_In in Hin.
      * rewrite lookup_insert_ne by done. rewrite sizes_lookup.
        destruct (last_with_key k' ws) as [w|] eqn:E; [|done].
        apply last_with_key_In in E as [_ E]. cbn [fmap option_fmap option_map].
        unfold c. destruct (Js.str_eqb (key w) k) eqn:E'; [|done].
        apply str_eqb_true in E'. congruence.
    + change (List.map c ws) with (changeSize k s ws).
      rewrite changeSize_absent; [done|]. by rewrite <- list_elem_of_In.
Qed.

Lemma handleSave_after_edit_witness :
  Array.includes
    (fst (fst (handleSave (toggleWidget (Js.lit "leads") Samples.three))))
    (Js.lit "deals")
  = Array.includes (fst (fst (handleSave Samples.three))) (Js.lit "deals").
Proof.
  apply (handleSave_after_edit (Js.lit "leads") xs Samples.three).
  vm_compute. discriminate.
Defined.

(** *** Size badges *)

(** X23. The five sizes have five different labels and five different
    colours: a badge tells the size. *)
Theorem getSizeLabel_inj (s1 s2 : WidgetSize) :
  (getSizeLabel s1 = getSizeLabel s2 -> s1 = s2)
  /\ (getSizeColor s1 = getSizeColor s2 -> s1 = s2).
Proof.
  split; intros H; destruct s1, s2; try reflexivity;
    vm_compute in H; discriminate H.
Qed.

Lemma getSizeLabel_inj_witness :
  getSizeLabel xl = Js.lit "XL" /\ xl = xl.
Proof.
  split; [reflexivity|].
  apply (getSizeLabel_inj xl xl). reflexivity.
Defined.

End DashboardViewFacts.
